(** * SerialMonitor: the session state machine of [src/serialMonitor.js]

    The program keeps two process-wide variables, [serialConnection] and
    [logStream], and mutates them from the menu functions and from the
    callbacks registered on the serial port.  The embedding below threads one
    [State] value through every function of the source: the two variables,
    the objects they refer to (ports, write streams), the file system, the
    console, the prompt on display and the exit code.

    What the source gets from its libraries is the environment of the model:
    the answers typed at a prompt, clock readings, the result of
    [SerialPort.list()], exceptions thrown by library calls and the events of
    the port arrive as arguments. *)

From Stdlib Require Import ZArith String Ascii List Lia.
From stdpp Require Import base option list gmap strings pretty.

Local Open Scope string_scope.
Local Open Scope list_scope.

(** Let [simpl] compute the append of a text that starts with a known
    character. *)
#[local] Arguments String.append !_ _ / : simpl nomatch.

(** ** Characters and text *)

Definition CR : ascii := "013"%char.
Definition LF : ascii := "010"%char.

(** The JS literal ['\r\n']. *)
Definition CRLF : string := String CR (String LF "").

(** The JS literal ['\n']. *)
Definition NL : string := String LF "".

(** [s.replace(/:/g, '-')] *)
Fixpoint replace_colons (s : string) : string :=
  match s with
  | "" => ""
  | String c r =>
      String (if Ascii.eqb c ":"%char then "-"%char else c) (replace_colons r)
  end.

(** ** Paths and the file system (Node's [path] and [fs], POSIX flavour)

    An absolute, normalised path is the list of its segments from the root. *)

Fixpoint split_on (sep : ascii) (seg : string) (s : string) : list string :=
  match s with
  | "" => [seg]
  | String c r =>
      if Ascii.eqb c sep then seg :: split_on sep "" r
      else split_on sep (seg +:+ String c "") r
  end.

(** One step of the normalisation [path.join] performs: empty segments and
    [.] vanish, [..] drops the last segment (and stays at the root). *)
Definition push_segment (p : list string) (seg : string) : list string :=
  if bool_decide (seg = "" ∨ seg = ".") then p
  else if bool_decide (seg = "..") then removelast p
  else p ++ [seg].

(** [path.join(base, rel)] for an absolute normalised [base]. *)
Definition path_join (base : list string) (rel : string) : list string :=
  fold_left push_segment (split_on "/"%char "" rel) base.

(** [path.dirname] *)
Definition dirname (p : list string) : list string := removelast p.

Record FileSystem := mkFS {
  dirs : gset (list string);
  files : gmap (list string) string
}.

(** [fs.existsSync(p)]: true for a directory and for a file. *)
Definition existsSync (fsys : FileSystem) (p : list string) : bool :=
  bool_decide (p ∈ dirs fsys) || bool_decide (is_Some (files fsys !! p)).

(** [fs.mkdirSync(p)] without [recursive]: throws when the environment
    refuses ([env_error], e.g. EACCES), when [p] exists, or when the parent
    directory is missing; otherwise [p] becomes a directory. *)
Definition mkdirSync (fsys : FileSystem) (p : list string)
    (env_error : option string) : string + FileSystem :=
  match env_error with
  | Some e => inl e
  | None =>
      if existsSync fsys p then inl "EEXIST: file already exists"
      else if bool_decide (dirname p ∈ dirs fsys)
      then inr (mkFS ({[ p ]} ∪ dirs fsys) (files fsys))
      else inl "ENOENT: no such file or directory"
  end.

(** A [fs.WriteStream].  [ws_opened] records whether the open behind
    [createWriteStream] can succeed: the call itself never throws, a failed
    open leaves a stream whose writes reach no file. *)
Record WriteStream := mkWS {
  ws_path : list string;
  ws_flags : string;
  ws_opened : bool;
  ws_ended : bool
}.

(** [fs.createWriteStream(p, { flags })] with flags ['a']: the file is
    created when absent and its content is kept when present. *)
Definition createWriteStream (fsys : FileSystem) (p : list string)
    (flags : string) : FileSystem * WriteStream :=
  if bool_decide (dirname p ∈ dirs fsys) && negb (bool_decide (p ∈ dirs fsys))
  then (mkFS (dirs fsys) (<[ p := default "" (files fsys !! p) ]> (files fsys)),
        mkWS p flags true false)
  else (fsys, mkWS p flags false false).

(** [stream.write(text)]: appended to the file of an opened stream that has
    not been ended. *)
Definition stream_write (fsys : FileSystem) (w : WriteStream)
    (text : string) : FileSystem :=
  if ws_opened w && negb (ws_ended w)
  then mkFS (dirs fsys)
            (<[ ws_path w := default "" (files fsys !! ws_path w) +:+ text ]>
               (files fsys))
  else fsys.

(** [stream.end()]: flushes and closes. *)
Definition stream_end (w : WriteStream) : WriteStream :=
  mkWS (ws_path w) (ws_flags w) (ws_opened w) true.

(** ** The Line Framer *)

Module LineFramer.
Section Delimiter.

  (** The two characters of the delimiter. *)
Variables d1 d2 : ascii.

Definition delimiter : string := String d1 (String d2 "").

  (** Modelled from the spec: the class [ReadlineParser] of the package
      [@serialport/parser-readline] is not part of the sources.  Following
      section 4.2, the framer splits the bytes on a fixed two-character
      delimiter, discards the delimiter and keeps the unterminated rest.
      [scan line data] reads [data] from the left with [line] the text of the
      line in progress; it returns the completed lines and the rest. *)
Fixpoint scan (line : string) (data : string) : list string * string :=
    match data with
    | "" => ([], line)
    | String c rest =>
        match rest with
        | "" => ([], line +:+ String c "")
        | String c' rest' =>
            if Ascii.eqb c d1 && Ascii.eqb c' d2
            then let '(ls, r) := scan "" rest' in (line :: ls, r)
            else scan (line +:+ String c "") rest
        end
    end.

  (** Modelled from the spec: one read of the [ReadlineParser] (absent from
      the sources).  The partial line buffered by the earlier reads is put in
      front of the new bytes; the lines completed by this read are emitted
      and the trailing partial line is buffered again. *)
Definition feed (buffer chunk : string) : list string * string :=
    scan "" (buffer +:+ chunk).

  (** Modelled from the spec: the [ReadlineParser] (absent from the sources)
      run over the successive reads of a byte stream, from the buffer
      [buffer]. *)
Fixpoint feed_all (buffer : string) (chunks : list string)
      : list string * string :=
    match chunks with
    | [] => ([], buffer)
    | chunk :: more =>
        let '(ls, b) := feed buffer chunk in
        let '(ls', b') := feed_all b more in
        (ls ++ ls', b')
    end.

  (** Reassembly: every completed line followed by the delimiter. *)
Fixpoint reassemble (lines : list string) : string :=
    match lines with
    | [] => ""
    | l :: more => l +:+ delimiter +:+ reassemble more
    end.

  (** Concatenation of the reads of a stream. *)
Fixpoint stream_of (chunks : list string) : string :=
    match chunks with
    | [] => ""
    | c :: more => c +:+ stream_of more
    end.

  (** [has_delimiter s]: the delimiter occurs in [s]. *)
Fixpoint has_delimiter (s : string) : bool :=
    match s with
    | "" => false
    | String c rest =>
        match rest with
        | "" => false
        | String c' _ => (Ascii.eqb c d1 && Ascii.eqb c' d2) || has_delimiter rest
        end
    end.

  (** The first character of a text, as a text. *)
Definition head_text (s : string) : string :=
    match s with
    | "" => ""
    | String c _ => String c ""
    end.

End Delimiter.
End LineFramer.

(** ** Objects of the session *)

(** An entry of [SerialPort.list()]. *)
Record PortInfo := mkPortInfo {
  pi_path : string;
  pi_manufacturer : option string;
  pi_serialNumber : option string
}.

(** Life of a port object: [new SerialPort] starts the open ([Opening]); the
    [open] event makes it [Open]; [close(cb)] and the [close] event make it
    [Closed]; the [error] event ends it ([Failed]).  A port emits events
    while it is [Opening] or [Open] only. *)
Inductive PortStatus := Opening | Open | Closed | Failed.

Definition live (st : PortStatus) : bool :=
  match st with
  | Opening | Open => true
  | Closed | Failed => false
  end.

(** The object built by [new SerialPort({ path, baudRate, dataBits, stopBits,
    parity })], with the [ReadlineParser] piped to it ([sp_parser] is the
    parser's buffer) and the bytes written to it so far. *)
Record SerialPort := mkPort {
  sp_path : string;
  sp_baudRate : Z;
  sp_dataBits : Z;
  sp_stopBits : Z;
  sp_parity : string;
  sp_status : PortStatus;
  sp_parser : string;
  sp_written : list string
}.

Definition new_SerialPort (path : string) (baudRate : Z) : SerialPort :=
  mkPort path baudRate 8 1 "none" Opening "" [].

Definition port_with_status (p : SerialPort) (st : PortStatus) : SerialPort :=
  mkPort (sp_path p) (sp_baudRate p) (sp_dataBits p) (sp_stopBits p)
         (sp_parity p) st (sp_parser p) (sp_written p).

Definition port_with_parser (p : SerialPort) (b : string) : SerialPort :=
  mkPort (sp_path p) (sp_baudRate p) (sp_dataBits p) (sp_stopBits p)
         (sp_parity p) (sp_status p) b (sp_written p).

(** [port.write(text)] *)
Definition port_write (p : SerialPort) (text : string) : SerialPort :=
  mkPort (sp_path p) (sp_baudRate p) (sp_dataBits p) (sp_stopBits p)
         (sp_parity p) (sp_status p) (sp_parser p) (sp_written p ++ [text]).

(** [console.log], [console.error], [console.debug] *)
Inductive Level := Log | Error | Debug.

(** The prompt on display. *)
Inductive Menu := DisconnectedMenu | ConnectedMenu.

(** ** The state

    [serialConnection] and [logStream] are the two variables of the source
    (lines 8-9); they hold references into [ports] and [streams], the
    objects created so far, in creation order. *)
Record State := mkState {
  serialConnection : option nat;
  logStream : option nat;
  ports : list SerialPort;
  streams : list WriteStream;
  fs : FileSystem;
  console : list (Level * string);
  menu : Menu;
  exited : option Z;
  cwd : list string
}.

Definition set_serialConnection (c : option nat) (s : State) : State :=
  mkState c (logStream s) (ports s) (streams s) (fs s) (console s) (menu s)
          (exited s) (cwd s).

Definition set_logStream (l : option nat) (s : State) : State :=
  mkState (serialConnection s) l (ports s) (streams s) (fs s) (console s)
          (menu s) (exited s) (cwd s).

Definition set_ports (ps : list SerialPort) (s : State) : State :=
  mkState (serialConnection s) (logStream s) ps (streams s) (fs s) (console s)
          (menu s) (exited s) (cwd s).

Definition set_streams (ws : list WriteStream) (s : State) : State :=
  mkState (serialConnection s) (logStream s) (ports s) ws (fs s) (console s)
          (menu s) (exited s) (cwd s).

Definition set_fs (f : FileSystem) (s : State) : State :=
  mkState (serialConnection s) (logStream s) (ports s) (streams s) f
          (console s) (menu s) (exited s) (cwd s).

Definition set_menu (m : Menu) (s : State) : State :=
  mkState (serialConnection s) (logStream s) (ports s) (streams s) (fs s)
          (console s) m (exited s) (cwd s).

(** [console.log(text)] and its siblings. *)
Definition print (lvl : Level) (text : string) (s : State) : State :=
  mkState (serialConnection s) (logStream s) (ports s) (streams s) (fs s)
          (console s ++ [(lvl, text)]) (menu s) (exited s) (cwd s).

(** [process.exit(code)] *)
Definition process_exit (code : Z) (s : State) : State :=
  mkState (serialConnection s) (logStream s) (ports s) (streams s) (fs s)
          (console s) (menu s) (Some code) (cwd s).

(** The state of a fresh process in directory [dir]. *)
Definition initial (dir : list string) (f : FileSystem) : State :=
  mkState None None [] [] f [] DisconnectedMenu None dir.

(** Apply [f] to the port object [c] refers to. *)
Definition update_port (c : nat) (f : SerialPort → SerialPort) (s : State)
    : State :=
  set_ports (alter f c (ports s)) s.

(** [logStream.end()] on the stream [k] refers to. *)
Definition end_stream (k : nat) (s : State) : State :=
  set_streams (alter stream_end k (streams s)) s.

(** [logStream.write(text)] on the stream [k] refers to. *)
Definition write_stream (k : nat) (text : string) (s : State) : State :=
  match streams s !! k with
  | Some w => set_fs (stream_write (fs s) w text) s
  | None => s
  end.

(** The text of a path, as [console.log] shows it. *)
Definition path_text (p : list string) : string :=
  fold_right (fun seg acc => "/" +:+ seg +:+ acc) "" p.

(** ** Menus (lines 24-82)

    A menu function of the source shows a prompt and, once the operator has
    answered, runs the chosen branch.  The model cuts each at the prompt:
    [showMainMenu], [showDisconnectedMenu] and [showConnectedMenu] put the
    prompt on display, [answerDisconnectedMenu] and [answerConnectedMenu] are
    the code after the [await]. *)

Definition showDisconnectedMenu (s : State) : option State :=
  Some (set_menu DisconnectedMenu s).

(** The message of the prompt reads [serialConnection.path]: a [TypeError]
    when the variable is null, rendered as [None]. *)
Definition showConnectedMenu (s : State) : option State :=
  c ← serialConnection s;
  _ ← ports s !! c;
  Some (set_menu ConnectedMenu s).

Definition showMainMenu (s : State) : option State :=
  match serialConnection s with
  | Some _ => showConnectedMenu s
  | None => showDisconnectedMenu s
  end.

(** ** Callbacks registered by [connectToDevice] (lines 137-170) *)

(** [serialConnection.on('open', ...)] *)
Definition on_open (path : string) (baudRate : Z) (s : State) : State :=
  print Debug (NL +:+ " " +:+ "Connected to " +:+ path +:+ " at "
               +:+ pretty baudRate +:+ " baud") s.

(** [serialConnection.on('error', ...)] *)
Definition on_error (message : string) (s : State) : option State :=
  let s := print Error ("Serial port error: " +:+ message) s in
  let s := set_serialConnection None s in
  showMainMenu s.

(** [serialConnection.on('close', ...)] *)
Definition on_close (s : State) : option State :=
  let s := print Log "Serial connection closed" s in
  let s := set_serialConnection None s in
  let s := match logStream s with
           | Some k => set_logStream None (end_stream k s)
           | None => s
           end in
  showMainMenu s.

(** [parser.on('data', ...)]; [timestamp] is [new Date().toISOString()]. *)
Definition parser_on_data (data timestamp : string) (s : State) : State :=
  let s := print Log ("[" +:+ timestamp +:+ "] " +:+ data) s in
  let streamMsg := "[" +:+ timestamp +:+ "] " +:+ data in
  let s := match logStream s with
           | Some k => write_stream k (streamMsg +:+ NL) s
           | None => s
           end in
  print Debug (NL +:+ " " +:+ streamMsg) s.

(** ** Operations (lines 84-252) *)

(** The choices of the baud-rate prompt (line 117). *)
Definition baudChoices : list Z :=
  [9600; 19200; 38400; 57600; 115200; 230400; 460800; 921600]%Z.

(** [connectToDevice].  [listed] is the outcome of [SerialPort.list()]: the
    message of the exception it throws, or the ports.  [port_choice] and
    [baud_choice] are the positions the operator picks in the two list
    prompts; a position outside the list is no answer, hence [None].
    [parseInt] is the identity on the numbers of [baudChoices]. *)
Definition connectToDevice (listed : string + list PortInfo)
    (port_choice baud_choice : nat) (s : State) : option State :=
  match listed with
  | inl message =>
      let s := print Error ("Connection error: " +:+ message) s in
      let s := set_serialConnection None s in
      showMainMenu s
  | inr found =>
      if bool_decide (length found = 0)
      then
        let s := print Log "No serial ports detected. Please connect a device." s in
        showMainMenu s
      else
        selectedPort ← pi_path <$> found !! port_choice;
        baudRate ← baudChoices !! baud_choice;
        let s := print Log ("Connecting to " +:+ selectedPort +:+ " at "
                            +:+ pretty baudRate +:+ " baud...") s in
        let c := length (ports s) in
        let s := set_ports (ports s ++ [new_SerialPort selectedPort baudRate]) s in
        let s := set_serialConnection (Some c) s in
        showMainMenu s
  end.

(** [disconnectFromDevice]: [serialConnection.close(cb)] closes the port and
    runs the callback. *)
Definition disconnectFromDevice (s : State) : State :=
  match serialConnection s with
  | Some c =>
      let s := update_port c (fun p => port_with_status p Closed) s in
      let s := print Log "Disconnected from serial device" s in
      let s := set_serialConnection None s in
      match logStream s with
      | Some k =>
          let s := end_stream k s in
          let s := set_logStream None s in
          print Log "Logging stopped" s
      | None => s
      end
  | None => s
  end.

(** [sendCommand].  [command] is the text typed at the prompt;
    [write_error] is the message of the exception thrown by
    [serialConnection.write], if it throws. *)
Definition sendCommand (command : string) (write_error : option string)
    (s : State) : State :=
  match serialConnection s with
  | None => print Log "Not connected to any device" s
  | Some c =>
      match write_error with
      | None =>
          let s := update_port c (fun p => port_write p (command +:+ CRLF)) s in
          print Log ("Command sent: " +:+ command) s
      | Some message =>
          print Error ("Failed to send command: " +:+ message) s
      end
  end.

(** The default of the file-name prompt (line 233); [timestamp] is
    [new Date().toISOString()]. *)
Definition defaultLogName (timestamp : string) : string :=
  "serial_log_" +:+ replace_colons timestamp +:+ ".txt".

(** The answer of an [input] prompt with a default: the default when nothing
    is typed. *)
Definition prompt_input (typed fallback : string) : string :=
  if bool_decide (typed = "") then fallback else typed.

(** [toggleLogging].  [typed] is the text typed at the prompt, [timestamp]
    the clock reading in its default, [mkdir_error] the message of the
    exception the environment makes [fs.mkdirSync] throw, if any. *)
Definition toggleLogging (typed timestamp : string)
    (mkdir_error : option string) (s : State) : State :=
  match logStream s with
  | Some k =>
      let s := end_stream k s in
      let s := set_logStream None s in
      print Log "Logging stopped" s
  | None =>
      let fileName := prompt_input typed (defaultLogName timestamp) in
      let logDir := path_join (cwd s) "logs" in
      let made :=
        if negb (existsSync (fs s) logDir)
        then mkdirSync (fs s) logDir mkdir_error
        else inr (fs s) in
      match made with
      | inl message => print Error ("Failed to create log file: " +:+ message) s
      | inr f =>
          let logPath := path_join logDir fileName in
          let '(f, w) := createWriteStream f logPath "a" in
          let k := length (streams s) in
          let s := set_fs f s in
          let s := set_streams (streams s ++ [w]) s in
          let s := set_logStream (Some k) s in
          print Log ("Logging to " +:+ path_text logPath) s
      end
  end.

(** ** Answers to the menus *)

Inductive DisconnectedAction :=
| pick_connect (listed : string + list PortInfo) (port_choice baud_choice : nat)
| pick_exit_disconnected.

Inductive ConnectedAction :=
| pick_disconnect
| pick_send (command : string) (write_error : option string)
| pick_log (typed timestamp : string) (mkdir_error : option string)
| pick_exit.

(** [showDisconnectedMenu] after its prompt (lines 45-50). *)
Definition answerDisconnectedMenu (a : DisconnectedAction) (s : State)
    : option State :=
  match a with
  | pick_connect listed port_choice baud_choice =>
      connectToDevice listed port_choice baud_choice s
  | pick_exit_disconnected =>
      Some (process_exit 0 (print Log "Goodbye!" s))
  end.

(** [showConnectedMenu] after its prompt (lines 68-81). *)
Definition answerConnectedMenu (a : ConnectedAction) (s : State)
    : option State :=
  match a with
  | pick_disconnect => showMainMenu (disconnectFromDevice s)
  | pick_send command write_error =>
      showConnectedMenu (sendCommand command write_error s)
  | pick_log typed timestamp mkdir_error =>
      showConnectedMenu (toggleLogging typed timestamp mkdir_error s)
  | pick_exit =>
      Some (process_exit 0 (print Log "Goodbye!" (disconnectFromDevice s)))
  end.

(** [main] (lines 11-22), up to the first prompt. *)
Definition main (s : State) : option State :=
  let s := print Log "===================================" s in
  let s := print Log "       Serial Monitor CLI" s in
  let s := print Log "===================================" s in
  showMainMenu s.

(** The [SIGINT] handler (lines 255-259). *)
Definition on_SIGINT (s : State) : State :=
  let s := print Log (NL +:+ "Gracefully shutting down...") s in
  process_exit 0 (disconnectFromDevice s).

(** ** Events of a port *)

Inductive PortEvent :=
| ev_open
| ev_error (message : string)
| ev_close
| ev_data (chunk : string) (now : nat → string).

(** A Received Line Event: the text of a completed line and the clock
    reading taken when the callback runs. *)
Definition ReceivedLine : Type := string * string.

(** The completed lines in emission order; the [i]-th callback of a read
    takes the clock reading [now i]. *)
Fixpoint stamp (now : nat → string) (i : nat) (lines : list string)
    : list ReceivedLine :=
  match lines with
  | [] => []
  | l :: more => (l, now i) :: stamp now (S i) more
  end.

(** The Received Line Events of one read on the port object [p]. *)
Definition received (p : SerialPort) (chunk : string) (now : nat → string)
    : list ReceivedLine :=
  stamp now 0 (fst (LineFramer.feed CR LF (sp_parser p) chunk)).

(** The callback of line 158 run on each event in turn. *)
Definition deliver (events : list ReceivedLine) (s : State) : State :=
  fold_left (fun s e => parser_on_data (fst e) (snd e) s) events s.

(** One event of the port object [c].  Only a port that is opening or open
    emits events; [open] comes from an opening port, [close] and data from an
    open one.  After [error] and after [close] the port is over. *)
Definition port_event (c : nat) (e : PortEvent) (s : State) : option State :=
  p ← ports s !! c;
  match e, sp_status p with
  | ev_open, Opening =>
      let s := update_port c (fun p => port_with_status p Open) s in
      Some (on_open (sp_path p) (sp_baudRate p) s)
  | ev_error message, (Opening | Open) =>
      let s := update_port c (fun p => port_with_status p Failed) s in
      on_error message s
  | ev_close, Open =>
      let s := update_port c (fun p => port_with_status p Closed) s in
      on_close s
  | ev_data chunk now, Open =>
      let events := received p chunk now in
      let rest := snd (LineFramer.feed CR LF (sp_parser p) chunk) in
      let s := update_port c (fun p => port_with_parser p rest) s in
      Some (deliver events s)
  | _, _ => None
  end.

(** ** The process as a transition system *)

Inductive Input :=
| answer_disconnected (a : DisconnectedAction)
| answer_connected (a : ConnectedAction)
| from_port (c : nat) (e : PortEvent)
| SIGINT.

(** One input.  [None]: the input cannot occur in this state (the process
    has exited, the answer belongs to a menu that is not on display, the
    port cannot emit the event) or an exception escapes. *)
Definition step (s : State) (i : Input) : option State :=
  match exited s with
  | Some _ => None
  | None =>
      match i, menu s with
      | answer_disconnected a, DisconnectedMenu => answerDisconnectedMenu a s
      | answer_connected a, ConnectedMenu => answerConnectedMenu a s
      | from_port c e, _ => port_event c e s
      | SIGINT, _ => Some (on_SIGINT s)
      | _, _ => None
      end
  end.

Fixpoint run (s : State) (inputs : list Input) : option State :=
  match inputs with
  | [] => Some s
  | i :: more => s' ← step s i; run s' more
  end.

(** A process started in directory [dir] on file system [f]. *)
Definition start (dir : list string) (f : FileSystem) : option State :=
  main (initial dir f).

(** ** What exists: Connections and Log Destinations *)

(** A Connection exists for every port object that is opening or open. *)
Definition connections (s : State) : nat :=
  length (List.filter (fun p => live (sp_status p)) (ports s)).

(** A Log Destination exists for every write stream that was not ended. *)
Definition logDestinations (s : State) : nat :=
  length (List.filter (fun w => negb (ws_ended w)) (streams s)).

(** The two variables account for every object in existence: a live port is
    the one [serialConnection] refers to, a stream that was not ended is the
    one [logStream] refers to, and neither variable dangles. *)
Record Owned (s : State) : Prop := mkOwned {
  owned_port : ∀ i p,
    ports s !! i = Some p → live (sp_status p) = true →
    serialConnection s = Some i;
  owned_connection : ∀ c,
    serialConnection s = Some c →
    ∃ p, ports s !! c = Some p ∧ live (sp_status p) = true;
  owned_stream : ∀ k w,
    streams s !! k = Some w → ws_ended w = false → logStream s = Some k;
  owned_log : ∀ k,
    logStream s = Some k →
    ∃ w, streams s !! k = Some w ∧ ws_ended w = false
}.

(** The disconnected menu is on display only while no Connection is bound. *)
Definition menu_agrees (s : State) : Prop :=
  menu s = DisconnectedMenu → serialConnection s = None.

Definition Inv (s : State) : Prop := Owned s ∧ menu_agrees s.

(** ** Text written to the log *)

(** The entry the callback of line 158 writes for a Received Line Event. *)
Definition log_entry (e : ReceivedLine) : string :=
  ("[" +:+ snd e +:+ "] " +:+ fst e) +:+ NL.

Fixpoint log_text (events : list ReceivedLine) : string :=
  match events with
  | [] => ""
  | e :: more => log_entry e +:+ log_text more
  end.

(** The two console entries of the same callback. *)
Definition console_entries (e : ReceivedLine) : list (Level * string) :=
  [(Log, "[" +:+ snd e +:+ "] " +:+ fst e);
   (Debug, NL +:+ " " +:+ ("[" +:+ snd e +:+ "] " +:+ fst e))].

(** What a file holds (nothing when it does not exist). *)
Definition content (f : FileSystem) (p : list string) : string :=
  default "" (files f !! p).

(** The directory of the logs (line 238). *)
Definition logDir (s : State) : list string := path_join (cwd s) "logs".

(** ** Predicates on ports, texts and file systems *)

(** The settings of line 125-131: one of the offered baud rates, 8 data
    bits, 1 stop bit, no parity. *)
Definition configured (p : SerialPort) : Prop :=
  sp_baudRate p ∈ baudChoices ∧ sp_dataBits p = 8%Z ∧ sp_stopBits p = 1%Z ∧
  sp_parity p = "none".

(** A text that ends with the terminator of line 213. *)
Definition terminated (text : string) : Prop :=
  ∃ command, text = command +:+ CRLF.

(** A property of port objects that holds of a new port and that no method
    the program calls on a port can break. *)
Record PortLaw (P : SerialPort → Prop) : Prop := mkPortLaw {
  law_new : ∀ path baudRate,
    baudRate ∈ baudChoices → P (new_SerialPort path baudRate);
  law_status : ∀ p st, P p → P (port_with_status p st);
  law_parser : ∀ p b, P p → P (port_with_parser p b);
  law_write : ∀ p command, P p → P (port_write p (command +:+ CRLF))
}.

(** [f'] has every directory of [f], and every file of [f] with its content
    possibly continued. *)
Definition fs_grows (f f' : FileSystem) : Prop :=
  dirs f ⊆ dirs f' ∧
  ∀ q text, files f !! q = Some text →
            ∃ more, files f' !! q = Some (text +:+ more).

(** The menu on display says whether a Connection is bound. *)
Definition menu_exact (s : State) : Prop :=
  menu s = ConnectedMenu ↔ is_Some (serialConnection s).

(** The character [c] occurs in [s]. *)
Fixpoint occurs (c : ascii) (s : string) : bool :=
  match s with
  | "" => false
  | String x r => Ascii.eqb x c || occurs c r
  end.

(** The inputs that end the process: the two [Exit] choices and the
    interrupt. *)
Definition is_exit (i : Input) : bool :=
  match i with
  | answer_disconnected pick_exit_disconnected => true
  | answer_connected pick_exit => true
  | SIGINT => true
  | _ => false
  end.

(** [p'] is a later state of the port object [p]: same path and baud
    rate, still over if [p] was over, and with everything [p] had been sent
    still in front of what it was sent. *)
Definition port_continues (p p' : SerialPort) : Prop :=
  sp_path p' = sp_path p ∧ sp_baudRate p' = sp_baudRate p ∧
  (live (sp_status p) = false → live (sp_status p') = false) ∧
  sp_written p `prefix_of` sp_written p'.

(** Every port object of [l] is still in [l'], at the same place. *)
Definition ports_continue (l l' : list SerialPort) : Prop :=
  ∀ j p, l !! j = Some p → ∃ p', l' !! j = Some p' ∧ port_continues p p'.

(** ** A sample session

    An operator in [/home/operator] with one adapter attached. *)

Module Sample.

Definition home : list string := ["home"; "operator"].

Definition disk : FileSystem := mkFS {[ home ]} ∅.

Definition attached : list PortInfo :=
  [mkPortInfo "/dev/ttyUSB0" (Some "FTDI") None].

Definition clock (i : nat) : string := "T" +:+ pretty i.

(** The operator picks the first port at 115200 baud. *)
Definition connect : Input :=
  answer_disconnected (pick_connect (inr attached) 0 4).

Definition log_to (typed : string) : Input :=
  answer_connected (pick_log typed "2024-05-01T10:00:00.000Z" None).

Definition session (inputs : list Input) : option State :=
  s ← start home disk; run s inputs.

(** The state a session ends in ([initial] when it does not run). *)
Definition state_after (inputs : list Input) : State :=
  default (initial home disk) (session inputs).

Definition disconnected : State := state_after [].

Definition connected : State := state_after [connect; from_port 0 ev_open].

Definition logging : State :=
  state_after [connect; from_port 0 ev_open; log_to "out.txt"].

(** From [logging], the three ways the Connection closes. *)
Definition after_error : State :=
  state_after [connect; from_port 0 ev_open; log_to "out.txt";
               from_port 0 (ev_error "device removed")].

Definition after_close : State :=
  state_after [connect; from_port 0 ev_open; log_to "out.txt";
               from_port 0 ev_close].

Definition after_disconnect : State :=
  state_after [connect; from_port 0 ev_open; log_to "out.txt";
               answer_connected pick_disconnect].

(** Logging to a name that climbs out of [logs], then one line. *)
Definition climbing : list Input :=
  [connect; from_port 0 ev_open; log_to "../out.txt";
   from_port 0 (ev_data ("hello" +:+ CRLF) clock)].

(** Logging to a name with a directory part. *)
Definition nested : list Input :=
  [connect; from_port 0 ev_open; log_to "sub/out.txt"].

(** A second connect after the error. *)
Definition reconnect : list Input :=
  [connect; from_port 0 ev_open; log_to "out.txt";
   from_port 0 (ev_error "device removed"); connect].

End Sample.

(** * Properties *)

(** ** Text *)

Lemma string_app_empty_r (s : string) : s +:+ "" = s.
Proof. induction s as [|c s IH]; simpl; [reflexivity | now rewrite IH]. Qed.

Lemma string_app_assoc (s1 s2 s3 : string) :
  (s1 +:+ s2) +:+ s3 = s1 +:+ (s2 +:+ s3).
Proof. induction s1 as [|c s1 IH]; simpl; [reflexivity | now rewrite IH]. Qed.

(** ** The Line Framer *)

Module LineFramerFacts.
Import LineFramer.
Section Delimiter.

Variables d1 d2 : ascii.

Abbreviation scan := (scan d1 d2).
Abbreviation feed := (feed d1 d2).
Abbreviation feed_all := (feed_all d1 d2).
Abbreviation reassemble := (reassemble d1 d2).
Abbreviation has_delimiter := (has_delimiter d1 d2).

Lemma scan_two (line : string) (c c' : ascii) (rest' : string) :
    scan line (String c (String c' rest')) =
    if Ascii.eqb c d1 && Ascii.eqb c' d2
    then let '(ls, r) := scan "" rest' in (line :: ls, r)
    else scan (line +:+ String c "") (String c' rest').
Proof. reflexivity. Qed.

Lemma has_delimiter_two (c c' : ascii) (rest' : string) :
    has_delimiter (String c (String c' rest')) =
    (Ascii.eqb c d1 && Ascii.eqb c' d2) || has_delimiter (String c' rest').
Proof. reflexivity. Qed.

Lemma scan_reassemble_bounded (n : nat) :
    ∀ data line ls r,
      String.length data <= n →
      scan line data = (ls, r) →
      line +:+ data = reassemble ls +:+ r.
Proof.
    induction n as [|n IH]; intros data line ls r Hn Hscan.
    - destruct data; simpl in Hn; [|lia].
      simpl in Hscan. injection Hscan as <- <-.
      simpl. apply string_app_empty_r.
    - destruct data as [|c rest].
      { simpl in Hscan. injection Hscan as <- <-. apply string_app_empty_r. }
      destruct rest as [|c' rest'].
      { simpl in Hscan. injection Hscan as <- <-. reflexivity. }
      simpl in Hn.
      rewrite scan_two in Hscan.
      destruct (Ascii.eqb c d1 && Ascii.eqb c' d2) eqn:Hd.
      + apply andb_true_iff in Hd as [H1 H2].
        apply Ascii.eqb_eq in H1, H2. subst c c'.
        destruct (scan "" rest') as [ls0 r0] eqn:Hrec.
        injection Hscan as <- <-.
        apply IH in Hrec; [|lia].
        simpl in Hrec. cbn [LineFramer.reassemble].
        rewrite !string_app_assoc. f_equal. simpl. now rewrite <- Hrec.
      + apply IH in Hscan; [|simpl; lia].
        rewrite <- Hscan, string_app_assoc. reflexivity.
Qed.

Lemma scan_reassemble (data line : string) (ls : list string) (r : string) :
    scan line data = (ls, r) → line +:+ data = reassemble ls +:+ r.
Proof. apply (scan_reassemble_bounded (String.length data)). lia. Qed.

Lemma reassemble_app (l1 l2 : list string) :
    reassemble (l1 ++ l2) = reassemble l1 +:+ reassemble l2.
Proof.
    induction l1 as [|l l1 IH]; simpl; [reflexivity|].
    now rewrite IH, !string_app_assoc.
Qed.

Lemma feed_reassemble (buffer chunk : string) (ls : list string) (r : string) :
    feed buffer chunk = (ls, r) → buffer +:+ chunk = reassemble ls +:+ r.
Proof. intros H. apply scan_reassemble in H. exact H. Qed.

  (** Reassembling the lines of a run and appending the buffered rest gives
      back the initial buffer followed by everything that was read. *)
Lemma feed_all_reassemble (chunks : list string) :
    ∀ buffer ls r,
      feed_all buffer chunks = (ls, r) →
      buffer +:+ stream_of chunks = reassemble ls +:+ r.
Proof.
    induction chunks as [|chunk more IH]; intros buffer ls r H; simpl in H.
    - injection H as <- <-. simpl. apply string_app_empty_r.
    - destruct (feed buffer chunk) as [ls1 b1] eqn:H1.
      destruct (feed_all b1 more) as [ls2 b2] eqn:H2.
      injection H as <- <-.
      apply feed_reassemble in H1. apply IH in H2.
      cbn [stream_of].
      rewrite reassemble_app, string_app_assoc, <- H2.
      rewrite <- !string_app_assoc, H1. reflexivity.
Qed.

Lemma has_delimiter_app_l (a b : string) :
    has_delimiter (a +:+ b) = false → has_delimiter a = false.
Proof.
    induction a as [|c a IH]; [reflexivity|].
    destruct a as [|c' a']; [reflexivity|].
    intros H. change (String c (String c' a') +:+ b)
      with (String c (String c' (a' +:+ b))) in H.
    rewrite has_delimiter_two in H |- *.
    apply orb_false_iff in H as [H1 H2].
    rewrite H1. simpl. apply IH. exact H2.
Qed.

Lemma has_delimiter_snoc (u : string) (c c' : ascii) :
    has_delimiter (u +:+ String c "") = false →
    Ascii.eqb c d1 && Ascii.eqb c' d2 = false →
    has_delimiter ((u +:+ String c "") +:+ String c' "") = false.
Proof.
    induction u as [|x u IH]; intros Hu Hc.
    - simpl. now rewrite Hc.
    - destruct u as [|y u'].
      + simpl in Hu |- *. apply orb_false_iff in Hu as [Hxy _].
        now rewrite Hxy, Hc.
      + change (has_delimiter (String x (String y (u' +:+ String c ""))) = false) in Hu.
        change (has_delimiter
                  (String x (String y ((u' +:+ String c "") +:+ String c' ""))) = false).
        rewrite has_delimiter_two in Hu |- *.
        apply orb_false_iff in Hu as [H1 H2]. rewrite H1. simpl.
        apply (IH H2 Hc).
Qed.

  (** Neither a completed line nor the rest holds a delimiter, as long as
      the line in progress holds none once the next character is added. *)
Lemma scan_no_delimiter_bounded (n : nat) :
    ∀ data line ls r,
      String.length data <= n →
      has_delimiter (line +:+ head_text data) = false →
      scan line data = (ls, r) →
      Forall (fun l => has_delimiter l = false) ls ∧ has_delimiter r = false.
Proof.
    induction n as [|n IH]; intros data line ls r Hn Hq Hscan.
    - destruct data; simpl in Hn; [|lia].
      simpl in Hscan, Hq. injection Hscan as <- <-.
      rewrite string_app_empty_r in Hq. split; [constructor | exact Hq].
    - destruct data as [|c rest].
      { simpl in Hscan, Hq. injection Hscan as <- <-.
        rewrite string_app_empty_r in Hq. split; [constructor | exact Hq]. }
      destruct rest as [|c' rest'].
      { simpl in Hscan. injection Hscan as <- <-.
        split; [constructor | exact Hq]. }
      simpl in Hn. cbn [head_text] in Hq.
      rewrite scan_two in Hscan.
      destruct (Ascii.eqb c d1 && Ascii.eqb c' d2) eqn:Hd.
      + destruct (scan "" rest') as [ls0 r0] eqn:Hrec.
        injection Hscan as <- <-.
        apply IH in Hrec; [|lia|destruct rest'; reflexivity].
        destruct Hrec as [Hls Hr]. split; [|exact Hr].
        constructor; [|exact Hls].
        apply has_delimiter_app_l in Hq. exact Hq.
      + apply IH in Hscan; [exact Hscan | simpl; lia |].
        cbn [head_text]. apply has_delimiter_snoc; assumption.
Qed.

Lemma feed_no_delimiter (buffer chunk : string) (ls : list string) (r : string) :
    feed buffer chunk = (ls, r) →
    Forall (fun l => has_delimiter l = false) ls ∧ has_delimiter r = false.
Proof.
    intros H.
    apply (scan_no_delimiter_bounded (String.length (buffer +:+ chunk))
             (buffer +:+ chunk) "" ls r); [lia | | exact H].
    destruct (buffer +:+ chunk); reflexivity.
Qed.

Lemma feed_all_no_delimiter (chunks : list string) :
    ∀ buffer ls r,
      has_delimiter buffer = false →
      feed_all buffer chunks = (ls, r) →
      Forall (fun l => has_delimiter l = false) ls ∧ has_delimiter r = false.
Proof.
    induction chunks as [|chunk more IH]; intros buffer ls r Hb H; simpl in H.
    - injection H as <- <-. split; [constructor | exact Hb].
    - destruct (feed buffer chunk) as [ls1 b1] eqn:H1.
      destruct (feed_all b1 more) as [ls2 b2] eqn:H2.
      injection H as <- <-.
      apply feed_no_delimiter in H1 as [Hl1 Hb1].
      apply (IH _ _ _ Hb1) in H2 as [Hl2 Hb2].
      split; [apply Forall_app; split; assumption | exact Hb2].
Qed.

End Delimiter.
End LineFramerFacts.

(** ** Connections and Log Destinations in existence *)

Lemma filter_none {A} (P : A → bool) (l : list A) :
  (∀ j y, l !! j = Some y → P y = false) → List.filter P l = [].
Proof.
  induction l as [|x l IH]; intros H; [reflexivity|].
  simpl. rewrite (H 0 x eq_refl). apply IH.
  intros j y Hj. exact (H (S j) y Hj).
Qed.

Lemma filter_at_most_one {A} (P : A → bool) (l : list A) :
  (∀ i j x y, l !! i = Some x → l !! j = Some y →
              P x = true → P y = true → i = j) →
  (length (List.filter P l) <= 1)%nat.
Proof.
  induction l as [|x l IH]; intros H; simpl; [lia|].
  destruct (P x) eqn:Hx.
  - rewrite filter_none; [simpl; lia|].
    intros j y Hj. destruct (P y) eqn:Hy; [|reflexivity].
    specialize (H 0 (S j) x y eq_refl Hj Hx Hy). discriminate.
  - apply IH. intros i j a b Hi Hj Ha Hb.
    specialize (H (S i) (S j) a b Hi Hj Ha Hb). congruence.
Qed.

Lemma Owned_connections (s : State) : Owned s → (connections s <= 1)%nat.
Proof.
  intros [Hp _ _ _]. apply filter_at_most_one.
  intros i j x y Hi Hj Hx Hy.
  pose proof (Hp i x Hi Hx) as E1. pose proof (Hp j y Hj Hy) as E2.
  congruence.
Qed.

Lemma Owned_logDestinations (s : State) :
  Owned s → (logDestinations s <= 1)%nat.
Proof.
  intros [_ _ Hs _]. apply filter_at_most_one.
  intros i j x y Hi Hj Hx Hy.
  apply negb_true_iff in Hx, Hy.
  pose proof (Hs i x Hi Hx) as E1. pose proof (Hs j y Hj Hy) as E2.
  congruence.
Qed.

Lemma lookup_alter_Some {A} (f : A → A) (c i : nat) (l : list A) (y : A) :
  alter f c l !! i = Some y →
  ∃ x, l !! i = Some x ∧ y = if decide (c = i) then f x else x.
Proof.
  destruct (decide (c = i)) as [->|Hne].
  - rewrite list_lookup_alter_eq. destruct (l !! i) as [x|]; [|discriminate].
    intros [= <-]. eauto.
  - rewrite list_lookup_alter_ne by exact Hne. eauto.
Qed.

(** Printing and the menu on display do not touch the objects. *)
Lemma Owned_print (lvl : Level) (text : string) (s : State) :
  Owned s → Owned (print lvl text s).
Proof. intros [H1 H2 H3 H4]. split; assumption. Qed.

Lemma Owned_set_menu (m : Menu) (s : State) : Owned s → Owned (set_menu m s).
Proof. intros [H1 H2 H3 H4]. split; assumption. Qed.

Lemma Owned_process_exit (code : Z) (s : State) :
  Owned s → Owned (process_exit code s).
Proof. intros [H1 H2 H3 H4]. split; assumption. Qed.

(** Ending the port [serialConnection] refers to and unbinding it. *)
Lemma Owned_drop_connection (c : nat) (st : PortStatus) (s : State) :
  Owned s → serialConnection s = Some c → live st = false →
  Owned (set_serialConnection None
           (update_port c (fun p => port_with_status p st) s)).
Proof.
  intros [H1 H2 H3 H4] Hc Hst. split; simpl.
  - intros i p Hi Hlive. apply lookup_alter_Some in Hi as (x & Hx & ->).
    destruct (decide (c = i)) as [->|Hne].
    + simpl in Hlive. congruence.
    + pose proof (H1 i x Hx Hlive). congruence.
  - discriminate.
  - exact H3.
  - exact H4.
Qed.

(** Ending the stream [logStream] refers to and unbinding it. *)
Lemma Owned_drop_log (k : nat) (s : State) :
  Owned s → logStream s = Some k →
  Owned (set_logStream None (end_stream k s)).
Proof.
  intros [H1 H2 H3 H4] Hk. split; simpl.
  - exact H1.
  - exact H2.
  - intros i w Hi Hopen. apply lookup_alter_Some in Hi as (x & Hx & ->).
    destruct (decide (k = i)) as [->|Hne].
    + simpl in Hopen. discriminate.
    + pose proof (H3 i x Hx Hopen). congruence.
  - discriminate.
Qed.

Lemma Owned_set_fs (f : FileSystem) (s : State) : Owned s → Owned (set_fs f s).
Proof. intros [H1 H2 H3 H4]. split; assumption. Qed.

Lemma Owned_write_stream (k : nat) (text : string) (s : State) :
  Owned s → Owned (write_stream k text s).
Proof.
  intros H. unfold write_stream. destruct (streams s !! k); [|exact H].
  apply Owned_set_fs, H.
Qed.

(** Changing a port object without changing whether it is live. *)
Lemma Owned_update_port (c : nat) (f : SerialPort → SerialPort) (s : State) :
  (∀ p, ports s !! c = Some p →
        live (sp_status (f p)) = live (sp_status p)) →
  Owned s → Owned (update_port c f s).
Proof.
  intros Hf [H1 H2 H3 H4]. split; simpl.
  - intros i p Hi Hlive. apply lookup_alter_Some in Hi as (x & Hx & ->).
    apply (H1 i x Hx).
    destruct (decide (c = i)) as [->|]; [rewrite <- (Hf x Hx)|]; exact Hlive.
  - intros c' Hc'. destruct (H2 c' Hc') as (p & Hp & Hlive).
    destruct (decide (c = c')) as [->|Hne].
    + exists (f p). rewrite list_lookup_alter_eq, Hp. split; [reflexivity|].
      now rewrite (Hf p Hp).
    + exists p. rewrite list_lookup_alter_ne by exact Hne. now split.
  - exact H3.
  - exact H4.
Qed.

(** [Owned] reads the two variables and the two object lists only. *)
Lemma Owned_ext (s s' : State) :
  serialConnection s' = serialConnection s → logStream s' = logStream s →
  ports s' = ports s → streams s' = streams s →
  Owned s → Owned s'.
Proof.
  intros E1 E2 E3 E4 [H1 H2 H3 H4].
  split; rewrite ?E1, ?E2, ?E3, ?E4; assumption.
Qed.

Lemma createWriteStream_stream (f : FileSystem) (p : list string) (flags : string) :
  ∃ opened, snd (createWriteStream f p flags) = mkWS p flags opened false.
Proof.
  unfold createWriteStream.
  destruct (_ && _); simpl; eauto.
Qed.

Lemma disconnectFromDevice_unbinds (s : State) :
  serialConnection (disconnectFromDevice s) = None.
Proof.
  unfold disconnectFromDevice.
  destruct (serialConnection s) as [c|] eqn:Hc; [|exact Hc].
  simpl. destruct (logStream s); reflexivity.
Qed.

Lemma Owned_disconnectFromDevice (s : State) :
  Owned s → Owned (disconnectFromDevice s).
Proof.
  intros H. unfold disconnectFromDevice.
  destruct (serialConnection s) as [c|] eqn:Hc; [|exact H].
  pose proof (Owned_drop_connection c Closed s H Hc eq_refl) as H'.
  simpl. destruct (logStream s) as [k|] eqn:Hk.
  - apply (Owned_drop_log k) in H'; [|exact Hk].
    revert H'. apply Owned_ext; reflexivity.
  - revert H'. apply Owned_ext; reflexivity.
Qed.

Lemma sendCommand_variables (command : string) (write_error : option string)
    (s : State) :
  serialConnection (sendCommand command write_error s) = serialConnection s ∧
  logStream (sendCommand command write_error s) = logStream s ∧
  streams (sendCommand command write_error s) = streams s ∧
  fs (sendCommand command write_error s) = fs s ∧
  menu (sendCommand command write_error s) = menu s.
Proof.
  unfold sendCommand.
  destruct (serialConnection s) eqn:Hc; [destruct write_error|];
    simpl; rewrite ?Hc; repeat split; reflexivity.
Qed.

Lemma Owned_sendCommand (command : string) (write_error : option string)
    (s : State) :
  Owned s → Owned (sendCommand command write_error s).
Proof.
  intros H. unfold sendCommand.
  destruct (serialConnection s) as [c|]; [destruct write_error|].
  - apply Owned_print, H.
  - apply Owned_print, Owned_update_port; [reflexivity | exact H].
  - apply Owned_print, H.
Qed.

Lemma toggleLogging_serialConnection (typed timestamp : string)
    (mkdir_error : option string) (s : State) :
  serialConnection (toggleLogging typed timestamp mkdir_error s)
  = serialConnection s ∧
  ports (toggleLogging typed timestamp mkdir_error s) = ports s.
Proof.
  unfold toggleLogging.
  destruct (logStream s); [split; reflexivity|].
  destruct (if negb _ then _ else _); [split; reflexivity|].
  destruct (createWriteStream _ _ _). split; reflexivity.
Qed.

Lemma Owned_toggleLogging (typed timestamp : string)
    (mkdir_error : option string) (s : State) :
  Owned s → Owned (toggleLogging typed timestamp mkdir_error s).
Proof.
  intros H. unfold toggleLogging.
  destruct (logStream s) as [k|] eqn:Hk.
  - apply Owned_print, Owned_drop_log; assumption.
  - destruct (if negb _ then _ else _) as [message|f]; [apply Owned_print, H|].
    destruct (createWriteStream_stream f
                (path_join (path_join (cwd s) "logs")
                   (prompt_input typed (defaultLogName timestamp))) "a")
      as [opened Hw].
    destruct (createWriteStream _ _ _) as [f' w]. simpl in Hw. subst w.
    apply Owned_print. destruct H as [H1 H2 H3 H4]. split; simpl.
    + exact H1.
    + exact H2.
    + intros i w Hi Hopen. apply lookup_snoc_Some in Hi as [[_ Hi]|[-> _]].
      * pose proof (H3 i w Hi Hopen). congruence.
      * reflexivity.
    + intros k' [= <-]. eexists.
      split; [apply lookup_snoc_Some; right; split; reflexivity | reflexivity].
Qed.

Lemma showDisconnectedMenu_Inv (s s' : State) :
  Owned s → serialConnection s = None →
  showDisconnectedMenu s = Some s' → Inv s'.
Proof.
  intros H Hc [= <-]. split; [apply Owned_set_menu, H | intros _; exact Hc].
Qed.

Lemma showConnectedMenu_Inv (s s' : State) :
  Owned s → showConnectedMenu s = Some s' → Inv s'.
Proof.
  intros H Hs. unfold showConnectedMenu in Hs.
  destruct (serialConnection s) as [c|]; [|discriminate]. simpl in Hs.
  destruct (ports s !! c); [|discriminate]. simpl in Hs.
  injection Hs as <-. split; [apply Owned_set_menu, H | discriminate].
Qed.

Lemma showMainMenu_Inv (s s' : State) :
  Owned s → showMainMenu s = Some s' → Inv s'.
Proof.
  intros H Hs. unfold showMainMenu in Hs.
  destruct (serialConnection s) eqn:Hc.
  - eapply showConnectedMenu_Inv; eassumption.
  - eapply showDisconnectedMenu_Inv; eassumption.
Qed.

Lemma connectToDevice_Inv (listed : string + list PortInfo)
    (port_choice baud_choice : nat) (s s' : State) :
  Owned s → serialConnection s = None →
  connectToDevice listed port_choice baud_choice s = Some s' → Inv s'.
Proof.
  intros H Hc Hs. unfold connectToDevice in Hs.
  destruct listed as [message|found].
  - eapply showMainMenu_Inv; [|exact Hs].
    apply (Owned_ext s); try reflexivity; [symmetry; exact Hc | exact H].
  - destruct (bool_decide (length found = 0)).
    { eapply showMainMenu_Inv; [|exact Hs]. apply Owned_print, H. }
    destruct (found !! port_choice) as [info|]; [|discriminate]. simpl in Hs.
    destruct (baudChoices !! baud_choice) as [baudRate|]; [|discriminate].
    simpl in Hs. eapply showMainMenu_Inv; [|exact Hs].
    destruct H as [H1 H2 H3 H4]. split; simpl.
    + intros i p Hi Hlive. apply lookup_snoc_Some in Hi as [[_ Hi]|[-> _]].
      * pose proof (H1 i p Hi Hlive). congruence.
      * reflexivity.
    + intros c [= <-]. eexists.
      split; [apply lookup_snoc_Some; right; split; reflexivity | reflexivity].
    + exact H3.
    + exact H4.
Qed.

Lemma Owned_parser_on_data (data timestamp : string) (s : State) :
  Owned s → Owned (parser_on_data data timestamp s).
Proof.
  intros H. unfold parser_on_data. apply Owned_print.
  change (logStream (print Log ("[" +:+ timestamp +:+ "] " +:+ data) s))
    with (logStream s).
  destruct (logStream s).
  - apply Owned_write_stream, Owned_print, H.
  - apply Owned_print, H.
Qed.

Lemma Owned_deliver (events : list ReceivedLine) (s : State) :
  Owned s → Owned (deliver events s).
Proof.
  revert s. induction events as [|e events IH]; intros s H; [exact H|].
  apply IH, Owned_parser_on_data, H.
Qed.

Lemma parser_on_data_variables (data timestamp : string) (s : State) :
  serialConnection (parser_on_data data timestamp s) = serialConnection s ∧
  logStream (parser_on_data data timestamp s) = logStream s ∧
  ports (parser_on_data data timestamp s) = ports s ∧
  streams (parser_on_data data timestamp s) = streams s ∧
  menu (parser_on_data data timestamp s) = menu s.
Proof.
  unfold parser_on_data. simpl.
  destruct (logStream s) as [k|] eqn:Hk; simpl; [|now rewrite Hk].
  unfold write_stream. simpl.
  destruct (streams s !! k); simpl; now rewrite Hk.
Qed.

Lemma deliver_variables (events : list ReceivedLine) (s : State) :
  serialConnection (deliver events s) = serialConnection s ∧
  logStream (deliver events s) = logStream s ∧
  ports (deliver events s) = ports s ∧
  streams (deliver events s) = streams s ∧
  menu (deliver events s) = menu s.
Proof.
  revert s. induction events as [|e events IH]; intros s; [now repeat split|].
  destruct (IH (parser_on_data (fst e) (snd e) s)) as (E1 & E2 & E3 & E4 & E5).
  destruct (parser_on_data_variables (fst e) (snd e) s)
    as (F1 & F2 & F3 & F4 & F5).
  change (deliver (e :: events) s)
    with (deliver events (parser_on_data (fst e) (snd e) s)).
  rewrite E1, E2, E3, E4, E5. now repeat split.
Qed.

Lemma on_error_Inv (c : nat) (message : string) (s s' : State) :
  Owned s → serialConnection s = Some c →
  on_error message (update_port c (fun p => port_with_status p Failed) s)
  = Some s' →
  Inv s'.
Proof.
  intros H Hc Hs. unfold on_error in Hs.
  eapply showMainMenu_Inv; [|exact Hs].
  pose proof (Owned_drop_connection c Failed s H Hc eq_refl) as H'.
  revert H'. apply Owned_ext; reflexivity.
Qed.

Lemma on_close_Inv (c : nat) (s s' : State) :
  Owned s → serialConnection s = Some c →
  on_close (update_port c (fun p => port_with_status p Closed) s) = Some s' →
  Inv s'.
Proof.
  intros H Hc Hs. unfold on_close in Hs.
  eapply showMainMenu_Inv; [|exact Hs].
  pose proof (Owned_drop_connection c Closed s H Hc eq_refl) as H'.
  simpl. destruct (logStream s) as [k|] eqn:Hk.
  - apply (Owned_drop_log k) in H'; [|exact Hk].
    revert H'. apply Owned_ext; reflexivity.
  - revert H'. apply Owned_ext; reflexivity.
Qed.

Lemma port_event_Inv (c : nat) (e : PortEvent) (s s' : State) :
  Inv s → port_event c e s = Some s' → Inv s'.
Proof.
  intros [H Hm] Hs. unfold port_event in Hs.
  destruct (ports s !! c) as [p|] eqn:Hp; [|discriminate]. simpl in Hs.
  assert (Hcur : live (sp_status p) = true → serialConnection s = Some c)
    by (apply (owned_port s H c p Hp)).
  destruct e as [|message| |chunk now].
  - destruct (sp_status p) eqn:Hst; try discriminate.
    injection Hs as <-. split.
    + apply Owned_print, Owned_update_port; [|exact H].
      intros q Hq. assert (q = p) as -> by congruence.
      simpl. now rewrite Hst.
    + exact Hm.
  - destruct (sp_status p) eqn:Hst; try discriminate;
      (eapply on_error_Inv; [exact H | apply Hcur; reflexivity | exact Hs]).
  - destruct (sp_status p) eqn:Hst; try discriminate.
    eapply on_close_Inv; [exact H | apply Hcur; reflexivity | exact Hs].
  - destruct (sp_status p) eqn:Hst; try discriminate.
    injection Hs as <-.
    set (s1 := update_port c _ s).
    assert (H1 : Owned s1).
    { apply Owned_update_port; [|exact H]. intros q _. reflexivity. }
    split; [apply Owned_deliver, H1|].
    unfold menu_agrees.
    destruct (deliver_variables (received p chunk now) s1)
      as (E1 & _ & _ & _ & E5).
    rewrite E1, E5. exact Hm.
Qed.

Lemma step_Inv (s s' : State) (i : Input) :
  Inv s → step s i = Some s' → Inv s'.
Proof.
  intros HI Hs. unfold step in Hs.
  destruct (exited s); [discriminate|].
  destruct i as [a|a|c e|].
  - destruct (menu s) eqn:Hmenu; [|discriminate].
    destruct HI as [H Hm]. specialize (Hm Hmenu).
    destruct a as [listed port_choice baud_choice|]; simpl in Hs.
    + eapply connectToDevice_Inv; eassumption.
    + injection Hs as <-.
      split; [apply Owned_process_exit, Owned_print, H | intros _; exact Hm].
  - destruct (menu s) eqn:Hmenu; [discriminate|].
    destruct HI as [H Hm].
    destruct a as [|command write_error|typed timestamp mkdir_error|];
      simpl in Hs.
    + eapply showMainMenu_Inv; [|exact Hs]. apply Owned_disconnectFromDevice, H.
    + eapply showConnectedMenu_Inv; [|exact Hs]. apply Owned_sendCommand, H.
    + eapply showConnectedMenu_Inv; [|exact Hs]. apply Owned_toggleLogging, H.
    + injection Hs as <-. split.
      * apply Owned_process_exit, Owned_print, Owned_disconnectFromDevice, H.
      * intros _. apply disconnectFromDevice_unbinds.
  - destruct (menu s); eapply port_event_Inv; eassumption.
  - assert (Some (on_SIGINT s) = Some s') as [= <-] by (destruct (menu s); exact Hs).
    destruct HI as [H Hm]. split.
    + apply Owned_process_exit, Owned_disconnectFromDevice, Owned_print, H.
    + intros _. apply disconnectFromDevice_unbinds.
Qed.

Lemma run_Inv (inputs : list Input) :
  ∀ s s', Inv s → run s inputs = Some s' → Inv s'.
Proof.
  induction inputs as [|i more IH]; intros s s' HI Hr; simpl in Hr.
  - now injection Hr as <-.
  - destruct (step s i) as [s1|] eqn:Hstep; [|discriminate]. simpl in Hr.
    eapply IH; [|exact Hr]. eapply step_Inv; eassumption.
Qed.

Lemma Owned_initial (dir : list string) (f : FileSystem) :
  Owned (initial dir f).
Proof. split; simpl; intros; discriminate. Qed.

Lemma start_Inv (dir : list string) (f : FileSystem) (s : State) :
  start dir f = Some s → Inv s.
Proof.
  intros Hs. unfold start, main in Hs.
  eapply showMainMenu_Inv; [|exact Hs].
  do 3 apply Owned_print. apply Owned_initial.
Qed.

(** ** Disconnecting and sending *)

(** C7: [disconnectFromDevice] in a session that holds no Connection returns
    the state it was given: no port is closed, no stream is ended, nothing
    is printed and no variable changes. *)
Theorem disconnect_when_disconnected (s : State) :
  serialConnection s = None → disconnectFromDevice s = s.
Proof. intros H. unfold disconnectFromDevice. now rewrite H. Qed.

Lemma disconnect_when_disconnected_witness :
  serialConnection Sample.disconnected = None ∧
  disconnectFromDevice Sample.disconnected = Sample.disconnected.
Proof.
  split; [reflexivity|].
  apply (disconnect_when_disconnected Sample.disconnected). reflexivity.
Defined.

(** C10: [sendCommand] in a session that holds no Connection only prints
    the not-connected message: the result is the given state with that one
    console entry added, so no port object receives a byte and both
    variables keep their value. *)
Theorem send_when_disconnected (command : string)
    (write_error : option string) (s : State) :
  serialConnection s = None →
  sendCommand command write_error s
    = print Log "Not connected to any device" s ∧
  ports (sendCommand command write_error s) = ports s ∧
  serialConnection (sendCommand command write_error s) = None ∧
  logStream (sendCommand command write_error s) = logStream s.
Proof.
  intros H. unfold sendCommand. rewrite H. simpl. now rewrite H.
Qed.

Lemma send_when_disconnected_witness :
  serialConnection Sample.disconnected = None ∧
  ports (sendCommand "AT" None Sample.disconnected) = [].
Proof.
  split; [reflexivity|].
  destruct (send_when_disconnected "AT" None Sample.disconnected eq_refl)
    as (_ & Hports & _).
  exact Hports.
Defined.

(** C6: when [serialConnection.write] throws in a session that holds a
    Connection, [sendCommand] only reports the failure: the result is the
    given state with the error entry added to the console.  Whatever the
    write does, [sendCommand] leaves [serialConnection], [logStream], the
    streams, the file system and the menu as they were, and the connected
    menu comes back after it. *)
Theorem send_write_failure (command message : string) (c : nat) (s : State) :
  serialConnection s = Some c →
  sendCommand command (Some message) s
    = print Error ("Failed to send command: " +:+ message) s ∧
  (∀ write_error,
      serialConnection (sendCommand command write_error s) = Some c ∧
      logStream (sendCommand command write_error s) = logStream s ∧
      streams (sendCommand command write_error s) = streams s ∧
      fs (sendCommand command write_error s) = fs s) ∧
  (∀ write_error s',
      answerConnectedMenu (pick_send command write_error) s = Some s' →
      menu s' = ConnectedMenu ∧ serialConnection s' = Some c ∧
      logStream s' = logStream s).
Proof.
  intros Hc. split; [|split].
  - unfold sendCommand. now rewrite Hc.
  - intros write_error.
    destruct (sendCommand_variables command write_error s)
      as (E1 & E2 & E3 & E4 & _).
    rewrite E1, E2, E3, E4. now repeat split.
  - intros write_error s' Hs. simpl in Hs. unfold showConnectedMenu in Hs.
    destruct (sendCommand_variables command write_error s)
      as (E1 & E2 & _).
    rewrite E1, Hc in Hs. simpl in Hs.
    destruct (ports _ !! c); [|discriminate]. injection Hs as <-.
    simpl. rewrite E1, E2. now repeat split.
Qed.

Lemma send_write_failure_witness :
  serialConnection Sample.connected = Some 0 ∧
  sendCommand "AT" (Some "EIO") Sample.connected
    = print Error "Failed to send command: EIO" Sample.connected.
Proof.
  split; [reflexivity|].
  destruct (send_write_failure "AT" "EIO" 0 Sample.connected eq_refl)
    as (Hfail & _).
  exact Hfail.
Defined.

(** ** Paths that close the Connection *)

(** Explicit disconnect with a Log Destination bound: the port is closed,
    the stream is ended and both variables are unbound. *)
Lemma disconnect_closes_log (c k : nat) (s : State) :
  serialConnection s = Some c → logStream s = Some k →
  disconnectFromDevice s
    = print Log "Logging stopped"
        (set_logStream None
           (end_stream k
              (set_serialConnection None
                 (print Log "Disconnected from serial device"
                    (update_port c (fun p => port_with_status p Closed) s))))).
Proof.
  intros Hc Hk. unfold disconnectFromDevice. rewrite Hc. simpl. now rewrite Hk.
Qed.

(** The [close] callback with a Log Destination bound: the stream is ended
    and both variables are unbound. *)
Lemma on_close_closes_log (k : nat) (s : State) :
  logStream s = Some k →
  on_close s
    = Some (set_menu DisconnectedMenu
              (set_logStream None
                 (end_stream k
                    (set_serialConnection None
                       (print Log "Serial connection closed" s))))).
Proof. intros Hk. unfold on_close. simpl. now rewrite Hk. Qed.

(** The [error] callback unbinds [serialConnection] and touches neither
    [logStream] nor the streams. *)
Lemma on_error_keeps_log (message : string) (s : State) :
  on_error message s
    = Some (set_menu DisconnectedMenu
              (set_serialConnection None
                 (print Error ("Serial port error: " +:+ message) s))).
Proof. reflexivity. Qed.

(** C1, on the [error] path: in the sample session the operator connects,
    the port opens, logging is started on [out.txt] and the port then emits
    [error].  The session ends with no Connection, but [logStream] still
    refers to the stream and the stream has not been ended; the explicit
    disconnect and the [close] event, from the same state, end it. *)
Theorem error_event_leaves_log_open :
  let s := Sample.logging in
  let w := mkWS (Sample.home ++ ["logs"; "out.txt"]) "a" true false in
  (serialConnection s = Some 0 ∧ logStream s = Some 0 ∧
   streams s !! 0 = Some w) ∧
  (step s (from_port 0 (ev_error "device removed")) = Some Sample.after_error ∧
   serialConnection Sample.after_error = None ∧
   menu Sample.after_error = DisconnectedMenu ∧
   logStream Sample.after_error = Some 0 ∧
   streams Sample.after_error !! 0 = Some w) ∧
  (step s (from_port 0 ev_close) = Some Sample.after_close ∧
   serialConnection Sample.after_close = None ∧
   logStream Sample.after_close = None ∧
   streams Sample.after_close !! 0 = Some (stream_end w)) ∧
  (step s (answer_connected pick_disconnect) = Some Sample.after_disconnect ∧
   serialConnection Sample.after_disconnect = None ∧
   logStream Sample.after_disconnect = None ∧
   streams Sample.after_disconnect !! 0 = Some (stream_end w)).
Proof.
  cbv zeta. repeat apply conj; vm_compute; reflexivity.
Qed.

(** ** At most one Connection, at most one Log Destination *)



(** ** Failed connects *)

Lemma alter_last {A} (f : A → A) (l : list A) (x : A) :
  alter f (length l) (l ++ [x]) = l ++ [f x].
Proof.
  replace (length l) with (length l + 0) by lia.
  now rewrite alter_app_r.
Qed.

(** C9: a connect that fails leaves the session disconnected.  When
    [SerialPort.list()] throws, [connectToDevice] prints the error, creates
    no port object and shows the disconnected menu.  When the port is
    created and its open fails, the [error] event that reports it prints the
    error, unbinds [serialConnection] and shows the disconnected menu; the
    one port object of the attempt has failed and no other was created, so
    nothing was retried. *)
Theorem connect_failure (s : State) :
  serialConnection s = None →
  (∀ message port_choice baud_choice,
      ∃ s', connectToDevice (inl message) port_choice baud_choice s = Some s' ∧
            serialConnection s' = None ∧ menu s' = DisconnectedMenu ∧
            ports s' = ports s ∧
            console s' = console s ++ [(Error, "Connection error: " +:+ message)]) ∧
  (∀ found port_choice baud_choice s1 c message,
      connectToDevice (inr found) port_choice baud_choice s = Some s1 →
      serialConnection s1 = Some c →
      ∃ s2 path baudRate,
        port_event c (ev_error message) s1 = Some s2 ∧
        serialConnection s2 = None ∧ menu s2 = DisconnectedMenu ∧
        console s2 = console s1 ++ [(Error, "Serial port error: " +:+ message)] ∧
        ports s2 = ports s ++ [port_with_status (new_SerialPort path baudRate) Failed] ∧
        connections s2 = connections s).
Proof.
  intros Hc. split.
  - intros message port_choice baud_choice. eexists. simpl.
    split; [reflexivity|]. now repeat split.
  - intros found port_choice baud_choice s1 c message Hs1 Hc1.
    unfold connectToDevice in Hs1.
    destruct (bool_decide (length found = 0)).
    { unfold showMainMenu in Hs1. simpl in Hs1. rewrite Hc in Hs1.
      injection Hs1 as <-. simpl in Hc1. congruence. }
    destruct (found !! port_choice) as [info|]; [|discriminate]. simpl in Hs1.
    destruct (baudChoices !! baud_choice) as [baudRate|]; [|discriminate].
    simpl in Hs1. unfold showMainMenu, showConnectedMenu in Hs1. simpl in Hs1.
    rewrite list_lookup_middle in Hs1 by reflexivity. simpl in Hs1.
    injection Hs1 as <-. simpl in Hc1. injection Hc1 as <-.
    exists (set_menu DisconnectedMenu
              (set_serialConnection None
                 (print Error ("Serial port error: " +:+ message)
                    (update_port (length (ports s))
                       (fun p => port_with_status p Failed)
                       (set_menu ConnectedMenu
                          (set_serialConnection (Some (length (ports s)))
                             (set_ports (ports s ++ [new_SerialPort (pi_path info) baudRate])
                                (print Log ("Connecting to " +:+ pi_path info +:+ " at "
                                            +:+ pretty baudRate +:+ " baud...") s)))))))),
      (pi_path info), baudRate.
    split.
    { unfold port_event. simpl.
      rewrite list_lookup_middle by reflexivity. reflexivity. }
    simpl. rewrite alter_last. repeat apply conj; try reflexivity.
    unfold connections, update_port.
    cbn [ports set_ports set_menu set_serialConnection print].
    rewrite alter_last, List.filter_app, length_app. simpl. lia.
Qed.

Lemma connect_failure_witness :
  serialConnection Sample.disconnected = None ∧
  ∃ s', connectToDevice (inl "EACCES") 0 0 Sample.disconnected = Some s' ∧
        serialConnection s' = None.
Proof.
  split; [reflexivity|].
  destruct (connect_failure Sample.disconnected eq_refl) as [Hsync _].
  destruct (Hsync "EACCES" 0 0) as (s' & Hs' & Hnone & _).
  exists s'. split; assumption.
Defined.

(** ** Framing *)

Lemma console_parser_on_data (data timestamp : string) (s : State) :
  console (parser_on_data data timestamp s)
  = console s ++ console_entries (data, timestamp).
Proof.
  unfold parser_on_data, console_entries. simpl.
  destruct (logStream s) as [k|]; simpl.
  - unfold write_stream. simpl. destruct (streams s !! k); simpl;
      now rewrite <- app_assoc.
  - now rewrite <- app_assoc.
Qed.

Lemma console_deliver (events : list ReceivedLine) (s : State) :
  console (deliver events s)
  = console s ++ concat (map console_entries events).
Proof.
  revert s. induction events as [|[data timestamp] events IH]; intros s.
  - simpl. now rewrite app_nil_r.
  - change (deliver ((data, timestamp) :: events) s)
      with (deliver events (parser_on_data data timestamp s)).
    rewrite IH, console_parser_on_data. simpl concat.
    now rewrite <- app_assoc.
Qed.

Lemma fs_on_close (s s' : State) : on_close s = Some s' → fs s' = fs s.
Proof.
  unfold on_close. simpl. destruct (logStream s); intros [= <-]; reflexivity.
Qed.

Lemma fs_disconnectFromDevice (s : State) : fs (disconnectFromDevice s) = fs s.
Proof.
  unfold disconnectFromDevice. destruct (serialConnection s); [|reflexivity].
  simpl. destruct (logStream s); reflexivity.
Qed.

Lemma ports_on_close (s s' : State) : on_close s = Some s' → ports s' = ports s.
Proof.
  unfold on_close. simpl. destruct (logStream s); intros [= <-]; reflexivity.
Qed.

(** A port that is not live takes no event. *)
Lemma port_event_over (c : nat) (p : SerialPort) (s : State) :
  ports s !! c = Some p → live (sp_status p) = false →
  ∀ e, port_event c e s = None.
Proof.
  intros Hp Hlive e. unfold port_event. rewrite Hp. simpl.
  destruct (sp_status p); try discriminate; destruct e; reflexivity.
Qed.



(** What a successful [connectToDevice] builds. *)
Lemma connectToDevice_created (found : list PortInfo)
    (port_choice baud_choice c : nat) (s s1 : State) :
  serialConnection s = None →
  connectToDevice (inr found) port_choice baud_choice s = Some s1 →
  serialConnection s1 = Some c →
  ∃ info baudRate,
    found !! port_choice = Some info ∧
    baudChoices !! baud_choice = Some baudRate ∧
    c = length (ports s) ∧
    ports s1 = ports s ++ [new_SerialPort (pi_path info) baudRate] ∧
    menu s1 = ConnectedMenu ∧ logStream s1 = logStream s ∧ fs s1 = fs s.
Proof.
  intros Hc Hs1 Hc1. unfold connectToDevice in Hs1.
  destruct (bool_decide (length found = 0)).
  { unfold showMainMenu in Hs1. simpl in Hs1. rewrite Hc in Hs1.
    injection Hs1 as <-. simpl in Hc1. congruence. }
  destruct (found !! port_choice) as [info|]; [|discriminate]. simpl in Hs1.
  destruct (baudChoices !! baud_choice) as [baudRate|]; [|discriminate].
  simpl in Hs1. unfold showMainMenu, showConnectedMenu in Hs1. simpl in Hs1.
  rewrite list_lookup_middle in Hs1 by reflexivity. simpl in Hs1.
  injection Hs1 as <-. simpl in Hc1. injection Hc1 as <-.
  exists info, baudRate. now repeat apply conj.
Qed.

(** C4: after a connect that bound a Connection and the [open] event of its
    port, the read ["A\r\nB\r\n"] gives exactly two Received Line Events,
    [A] then [B], without the delimiter; the callback of line 158 runs on
    each in that order and the parser is left with nothing buffered. *)
Theorem two_lines_after_connect (found : list PortInfo)
    (port_choice baud_choice c : nat) (now : nat → string)
    (s s1 s2 : State) :
  serialConnection s = None →
  connectToDevice (inr found) port_choice baud_choice s = Some s1 →
  serialConnection s1 = Some c →
  port_event c ev_open s1 = Some s2 →
  let bytes := "A" +:+ CRLF +:+ "B" +:+ CRLF in
  ∃ p s3,
    ports s2 !! c = Some p ∧
    received p bytes now = [("A", now 0); ("B", now 1)] ∧
    port_event c (ev_data bytes now) s2 = Some s3 ∧
    s3 = deliver [("A", now 0); ("B", now 1)] s2 ∧
    console s3 = console s2 ++ console_entries ("A", now 0)
                            ++ console_entries ("B", now 1).
Proof.
  intros Hc Hs1 Hc1 Hs2 bytes.
  destruct (connectToDevice_created found port_choice baud_choice c s s1
              Hc Hs1 Hc1)
    as (info & baudRate & _ & _ & -> & Hports & _).
  unfold port_event in Hs2. rewrite Hports in Hs2.
  rewrite list_lookup_middle in Hs2 by reflexivity. simpl in Hs2.
  injection Hs2 as <-.
  set (p := port_with_status (new_SerialPort (pi_path info) baudRate) Open).
  assert (Hp : ports (on_open (pi_path info) baudRate
                        (update_port (length (ports s))
                           (fun q => port_with_status q Open) s1))
               !! length (ports s) = Some p).
  { simpl. rewrite Hports, alter_last. apply list_lookup_middle. reflexivity. }
  set (s2 := on_open (pi_path info) baudRate
                (update_port (length (ports s))
                   (fun q => port_with_status q Open) s1)) in *.
  assert (Hsame : update_port (length (ports s))
                    (fun q => port_with_parser q "") s2 = s2).
  { unfold update_port at 1.
    replace (alter (fun q => port_with_parser q "") (length (ports s)) (ports s2))
      with (ports s2).
    - destruct s2; reflexivity.
    - subst s2. simpl. rewrite Hports, !alter_last. reflexivity. }
  exists p, (deliver [("A", now 0); ("B", now 1)] s2).
  split; [exact Hp|]. split; [reflexivity|].
  split; [|split; [reflexivity|]].
  - unfold port_event. rewrite Hp. simpl.
    unfold received. simpl. rewrite Hsame. reflexivity.
  - rewrite console_deliver. reflexivity.
Qed.

Lemma two_lines_after_connect_witness :
  ∃ s1 s2 s3,
    connectToDevice (inr Sample.attached) 0 4 Sample.disconnected = Some s1 ∧
    port_event 0 ev_open s1 = Some s2 ∧
    port_event 0 (ev_data ("A" +:+ CRLF +:+ "B" +:+ CRLF) Sample.clock) s2
    = Some s3 ∧
    s3 = deliver [("A", "T0"); ("B", "T1")] s2.
Proof.
  eexists _, _.
  destruct (two_lines_after_connect Sample.attached 0 4 0 Sample.clock
              Sample.disconnected _ _ eq_refl eq_refl eq_refl eq_refl)
    as (p & s3 & _ & _ & Hdata & Hs3 & _).
  exists s3. split; [reflexivity|]. split; [reflexivity|].
  split; [exact Hdata | exact Hs3].
Defined.

(** ** Logging *)

Lemma fs_parser_on_data (data timestamp : string) (k : nat) (w : WriteStream)
    (s : State) :
  logStream s = Some k → streams s !! k = Some w →
  fs (parser_on_data data timestamp s)
  = stream_write (fs s) w (log_entry (data, timestamp)).
Proof.
  intros Hk Hw. unfold parser_on_data. simpl. rewrite Hk.
  unfold write_stream. simpl. rewrite Hw. reflexivity.
Qed.

Lemma content_stream_write (f : FileSystem) (w : WriteStream) (text : string) :
  ws_opened w = true → ws_ended w = false →
  content (stream_write f w text) (ws_path w)
  = content f (ws_path w) +:+ text ∧
  (∀ q, q ≠ ws_path w → files (stream_write f w text) !! q = files f !! q) ∧
  dirs (stream_write f w text) = dirs f.
Proof.
  intros Ho He. unfold stream_write. rewrite Ho, He. simpl.
  split; [|split; [|reflexivity]].
  - unfold content. simpl. now rewrite lookup_insert_eq.
  - intros q Hq. now rewrite lookup_insert_ne.
Qed.

Lemma content_deliver (events : list ReceivedLine) :
  ∀ (s : State) (k : nat) (w : WriteStream),
    logStream s = Some k → streams s !! k = Some w →
    ws_opened w = true → ws_ended w = false →
    content (fs (deliver events s)) (ws_path w)
    = content (fs s) (ws_path w) +:+ log_text events ∧
    (∀ q, q ≠ ws_path w →
          files (fs (deliver events s)) !! q = files (fs s) !! q) ∧
    dirs (fs (deliver events s)) = dirs (fs s).
Proof.
  induction events as [|[data timestamp] events IH]; intros s k w Hk Hw Ho He.
  - simpl. rewrite string_app_empty_r. now repeat apply conj.
  - change (deliver ((data, timestamp) :: events) s)
      with (deliver events (parser_on_data data timestamp s)).
    destruct (parser_on_data_variables data timestamp s)
      as (_ & E2 & _ & E4 & _).
    destruct (IH (parser_on_data data timestamp s) k w) as (C & O & D);
      [now rewrite E2 | now rewrite E4 | exact Ho | exact He |].
    rewrite (fs_parser_on_data data timestamp k w s Hk Hw) in C, O, D.
    destruct (content_stream_write (fs s) w (log_entry (data, timestamp)) Ho He)
      as (C' & O' & D').
    split; [|split].
    + rewrite C, C'. cbn [log_text]. apply string_app_assoc.
    + intros q Hq. rewrite (O q Hq). apply (O' q Hq).
    + now rewrite D.
Qed.

Lemma push_segment_under (base p : list string) (seg : string) :
  seg ≠ ".." → base `prefix_of` p → base `prefix_of` push_segment p seg.
Proof.
  intros Hseg Hp. unfold push_segment.
  destruct (bool_decide (seg = "" ∨ seg = ".")); [exact Hp|].
  rewrite bool_decide_eq_false_2 by exact Hseg.
  now apply prefix_app_r.
Qed.

Lemma fold_push_segment_under (base : list string) (segs : list string) :
  ∀ p, ".." ∉ segs → base `prefix_of` p →
       base `prefix_of` fold_left push_segment segs p.
Proof.
  induction segs as [|seg segs IH]; intros p Hno Hp; [exact Hp|].
  simpl. apply IH.
  - intros Hin. apply Hno. now right.
  - apply push_segment_under; [|exact Hp].
    intros ->. apply Hno. now left.
Qed.

(** A name without a [..] segment stays under the directory it is joined
    to. *)
Lemma path_join_under (base : list string) (rel : string) :
  ".." ∉ split_on "/"%char "" rel → base `prefix_of` path_join base rel.
Proof. intros H. now apply fold_push_segment_under. Qed.

(** What [toggleLogging] binds when it starts logging. *)
Lemma toggleLogging_started (typed timestamp : string)
    (mkdir_error : option string) (k : nat) (s : State) :
  logStream s = None →
  logStream (toggleLogging typed timestamp mkdir_error s) = Some k →
  ∃ opened,
    k = length (streams s) ∧
    streams (toggleLogging typed timestamp mkdir_error s)
    = streams s ++
      [mkWS (path_join (logDir s) (prompt_input typed (defaultLogName timestamp)))
            "a" opened false].
Proof.
  intros Hnone Hk. unfold toggleLogging in *. rewrite Hnone in *.
  destruct (if negb _ then _ else _) as [message|f].
  { simpl in Hk. congruence. }
  destruct (createWriteStream_stream f
              (path_join (path_join (cwd s) "logs")
                 (prompt_input typed (defaultLogName timestamp))) "a")
    as [opened Hw].
  destruct (createWriteStream _ _ _) as [f' w]. simpl in Hw. subst w.
  simpl in Hk. injection Hk as <-. exists opened. split; reflexivity.
Qed.

(** C5, as the code has it: while [logStream] refers to a stream that was
    opened and not ended, the callback run over Received Line Events appends
    to the file of the stream the entries [[T] t] with a newline each, in
    arrival order, and changes no other file.  The file is the one
    [path.join] gives for the logs directory and the name; it lies under the
    logs directory when the name has no [..] segment. *)
Theorem log_lines_appended :
  (∀ (s : State) (k : nat) (w : WriteStream) (events : list ReceivedLine),
      logStream s = Some k → streams s !! k = Some w →
      ws_opened w = true → ws_ended w = false →
      content (fs (deliver events s)) (ws_path w)
      = content (fs s) (ws_path w) +:+ log_text events ∧
      (∀ q, q ≠ ws_path w →
            files (fs (deliver events s)) !! q = files (fs s) !! q)) ∧
  (∀ (s : State) (typed timestamp : string) (mkdir_error : option string)
     (k : nat) (w : WriteStream),
      logStream s = None →
      logStream (toggleLogging typed timestamp mkdir_error s) = Some k →
      streams (toggleLogging typed timestamp mkdir_error s) !! k = Some w →
      ws_path w
      = path_join (logDir s) (prompt_input typed (defaultLogName timestamp)) ∧
      (".." ∉ split_on "/"%char ""
                (prompt_input typed (defaultLogName timestamp)) →
       logDir s `prefix_of` ws_path w)).
Proof.
  split.
  - intros s k w events Hk Hw Ho He.
    destruct (content_deliver events s k w Hk Hw Ho He) as (C & O & _).
    split; assumption.
  - intros s typed timestamp mkdir_error k w Hnone Hk Hw.
    destruct (toggleLogging_started typed timestamp mkdir_error k s Hnone Hk)
      as (opened & -> & Hstreams).
    rewrite Hstreams, list_lookup_middle in Hw by reflexivity.
    injection Hw as <-. simpl. split; [reflexivity|].
    apply path_join_under.
Qed.

Lemma log_lines_appended_witness :
  logStream Sample.logging = Some 0 ∧
  content (fs (deliver [("hello", "T")] Sample.logging))
          (Sample.home ++ ["logs"; "out.txt"])
  = content (fs Sample.logging) (Sample.home ++ ["logs"; "out.txt"])
    +:+ log_text [("hello", "T")].
Proof.
  split; [reflexivity|].
  destruct log_lines_appended as [Happend _].
  exact (proj1 (Happend Sample.logging 0
                  (mkWS (Sample.home ++ ["logs"; "out.txt"]) "a" true false)
                  [("hello", "T")] eq_refl eq_refl eq_refl eq_refl)).
Defined.

(** C5 as stated fails on the place of the file: the operator answers the
    file-name prompt with [../out.txt]; the session runs, the received line
    is appended to [/home/operator/out.txt], and that file is not under
    [/home/operator/logs]. *)
Lemma log_file_outside_logs :
  let s := Sample.state_after Sample.climbing in
  Sample.session Sample.climbing = Some s ∧
  logStream s = Some 0 ∧
  ws_path <$> streams s !! 0 = Some (Sample.home ++ ["out.txt"]) ∧
  files (fs s) !! (Sample.home ++ ["out.txt"])
  = Some ("[T0] hello" +:+ NL) ∧
  ¬ (logDir s `prefix_of` Sample.home ++ ["out.txt"]).
Proof.
  cbv zeta. repeat apply conj; try (vm_compute; reflexivity).
  intros [rest Hrest]. vm_compute in Hrest. discriminate Hrest.
Qed.

Lemma logDir_cwd (s : State) : logDir s = cwd s ++ ["logs"].
Proof. reflexivity. Qed.

Lemma existsSync_dir (f : FileSystem) (p : list string) :
  p ∈ dirs f → existsSync f p = true.
Proof.
  intros H. unfold existsSync. now rewrite bool_decide_eq_true_2.
Qed.

(** Opening a write stream removes nothing from the file system. *)
Lemma createWriteStream_keeps (f : FileSystem) (p : list string) (flags : string) :
  dirs (fst (createWriteStream f p flags)) = dirs f ∧
  (∀ q text, files f !! q = Some text →
             files (fst (createWriteStream f p flags)) !! q = Some text) ∧
  (∀ q, existsSync f q = true →
        existsSync (fst (createWriteStream f p flags)) q = true).
Proof.
  unfold createWriteStream.
  destruct (_ && _); simpl; [|now repeat apply conj].
  assert (Hkeep : ∀ q text, files f !! q = Some text →
            <[p := default "" (files f !! p)]> (files f) !! q = Some text).
  { intros q text Hq. destruct (decide (p = q)) as [->|Hne].
    - rewrite lookup_insert_eq, Hq. reflexivity.
    - now rewrite lookup_insert_ne. }
  split; [reflexivity|]. split; [exact Hkeep|].
  intros q Hq. unfold existsSync in *. simpl.
  apply orb_true_iff in Hq as [Hq|Hq]; [now rewrite Hq|].
  apply bool_decide_eq_true_1 in Hq as [text Hq].
  apply orb_true_iff. right. apply bool_decide_eq_true_2.
  exists text. now apply Hkeep.
Qed.




(** * Further properties of the program *)

(** ** What a run keeps true *)

(** The menu functions change the menu on display and nothing else. *)
Lemma showConnectedMenu_only_menu (s s' : State) :
  showConnectedMenu s = Some s' →
  s' = set_menu ConnectedMenu s ∧ is_Some (serialConnection s).
Proof.
  unfold showConnectedMenu. destruct (serialConnection s) as [c|]; [|discriminate].
  simpl. destruct (ports s !! c); [|discriminate]. simpl.
  intros [= <-]. split; [reflexivity | eauto].
Qed.

Lemma showMainMenu_only_menu (s s' : State) :
  showMainMenu s = Some s' →
  s' = set_menu (menu s') s ∧
  (menu s' = ConnectedMenu ↔ is_Some (serialConnection s)).
Proof.
  unfold showMainMenu. destruct (serialConnection s) as [c|] eqn:Hc.
  - intros H. apply showConnectedMenu_only_menu in H as [-> _].
    split; [reflexivity|]. simpl. split; eauto.
  - intros [= <-]. split; [reflexivity|]. simpl. split; [discriminate|].
    intros [x Hx]. discriminate.
Qed.

(** An invariant of the states of a run: it holds after [main] and every
    input keeps it. *)
Lemma run_keeps (P : State → Prop) :
  (∀ s i s', Inv s → P s → step s i = Some s' → P s') →
  ∀ inputs s s', Inv s → P s → run s inputs = Some s' → P s'.
Proof.
  intros Hstep. induction inputs as [|i more IH]; intros s s' HI HP Hr;
    simpl in Hr.
  - now injection Hr as <-.
  - destruct (step s i) as [s1|] eqn:Hs; [|discriminate]. simpl in Hr.
    apply (IH s1 s'); [eapply step_Inv; eassumption | | exact Hr].
    eapply Hstep; eassumption.
Qed.

Lemma ports_started (dir : list string) (f : FileSystem) (s : State) :
  start dir f = Some s → ports s = [] ∧ fs s = f ∧ menu s = DisconnectedMenu
                         ∧ serialConnection s = None ∧ logStream s = None
                         ∧ exited s = None ∧ cwd s = dir.
Proof. intros [= <-]. now repeat apply conj. Qed.

Lemma ports_disconnectFromDevice (P : SerialPort → Prop) (s : State) :
  PortLaw P → Forall P (ports s) → Forall P (ports (disconnectFromDevice s)).
Proof.
  intros HP H. unfold disconnectFromDevice.
  destruct (serialConnection s) as [c|]; [|exact H].
  assert (Forall P (alter (fun p => port_with_status p Closed) c (ports s))).
  { apply Forall_alter; [exact H|]. intros p _ Hp. now apply law_status. }
  simpl. destruct (logStream s); simpl; assumption.
Qed.

Lemma ports_sendCommand (P : SerialPort → Prop) (command : string)
    (write_error : option string) (s : State) :
  PortLaw P → Forall P (ports s) →
  Forall P (ports (sendCommand command write_error s)).
Proof.
  intros HP H. unfold sendCommand.
  destruct (serialConnection s) as [c|]; [|exact H].
  destruct write_error; [exact H|]. simpl.
  apply Forall_alter; [exact H|]. intros p _ Hp. now apply law_write.
Qed.

Lemma ports_connectToDevice (P : SerialPort → Prop)
    (listed : string + list PortInfo) (port_choice baud_choice : nat)
    (s s' : State) :
  PortLaw P → Forall P (ports s) →
  connectToDevice listed port_choice baud_choice s = Some s' →
  Forall P (ports s').
Proof.
  intros HP H Hs. unfold connectToDevice in Hs.
  destruct listed as [message|found].
  { apply showMainMenu_only_menu in Hs as [-> _]. exact H. }
  destruct (bool_decide (length found = 0)).
  { apply showMainMenu_only_menu in Hs as [-> _]. exact H. }
  destruct (found !! port_choice) as [info|]; [|discriminate]. simpl in Hs.
  destruct (baudChoices !! baud_choice) as [baudRate|] eqn:Hb; [|discriminate].
  simpl in Hs. apply showMainMenu_only_menu in Hs as [-> _]. simpl.
  apply Forall_app. split; [exact H|]. constructor; [|constructor].
  apply law_new; [exact HP|]. eapply list_elem_of_lookup_2, Hb.
Qed.

Lemma ports_port_event (P : SerialPort → Prop) (c : nat) (e : PortEvent)
    (s s' : State) :
  PortLaw P → Forall P (ports s) → port_event c e s = Some s' →
  Forall P (ports s').
Proof.
  intros HP H Hs. unfold port_event in Hs.
  destruct (ports s !! c) as [p|]; [|discriminate]. simpl in Hs.
  assert (Hst : ∀ st, Forall P (alter (fun q => port_with_status q st) c (ports s))).
  { intros st. apply Forall_alter; [exact H|]. intros q _ Hq.
    now apply law_status. }
  destruct e as [|message| |chunk now]; destruct (sp_status p); try discriminate.
  - injection Hs as <-. apply Hst.
  - apply showMainMenu_only_menu in Hs as [-> _]. apply Hst.
  - apply showMainMenu_only_menu in Hs as [-> _]. apply Hst.
  - apply ports_on_close in Hs. rewrite Hs. apply Hst.
  - injection Hs as <-.
    match goal with |- Forall P (ports (deliver ?ev ?s0)) =>
      destruct (deliver_variables ev s0) as (_ & _ & E & _) end.
    rewrite E. simpl. apply Forall_alter; [exact H|]. intros q _ Hq.
    now apply law_parser.
Qed.

Lemma ports_step (P : SerialPort → Prop) (s s' : State) (i : Input) :
  PortLaw P → Forall P (ports s) → step s i = Some s' → Forall P (ports s').
Proof.
  intros HP H Hs. unfold step in Hs. destruct (exited s); [discriminate|].
  destruct i as [a|a|c e|].
  - destruct (menu s); [|discriminate].
    destruct a as [listed port_choice baud_choice|]; simpl in Hs.
    + eapply ports_connectToDevice; eassumption.
    + now injection Hs as <-.
  - destruct (menu s); [discriminate|].
    destruct a as [|command write_error|typed timestamp mkdir_error|];
      simpl in Hs.
    + apply showMainMenu_only_menu in Hs as [-> _].
      now apply ports_disconnectFromDevice.
    + apply showConnectedMenu_only_menu in Hs as [-> _].
      now apply ports_sendCommand.
    + apply showConnectedMenu_only_menu in Hs as [-> _]. simpl.
      destruct (toggleLogging_serialConnection typed timestamp mkdir_error s)
        as [_ E]. now rewrite E.
    + injection Hs as <-. now apply ports_disconnectFromDevice.
  - destruct (menu s); eapply ports_port_event; eassumption.
  - assert (Some (on_SIGINT s) = Some s') as [= <-] by (destruct (menu s); exact Hs).
    simpl. now apply (ports_disconnectFromDevice P (print Log _ s)).
Qed.

Lemma ports_run (P : SerialPort → Prop) (dir : list string) (f : FileSystem)
    (inputs : list Input) (s0 s : State) :
  PortLaw P → start dir f = Some s0 → run s0 inputs = Some s →
  Forall P (ports s).
Proof.
  intros HP Hstart Hrun.
  apply (run_keeps (fun s => Forall P (ports s))
           (fun s1 i s2 _ H Hs => ports_step P s1 s2 i HP H Hs)
           inputs s0 s (start_Inv dir f s0 Hstart)); [|exact Hrun].
  apply ports_started in Hstart as (-> & _). constructor.
Qed.

Lemma configured_law : PortLaw configured.
Proof.
  split.
  - intros path baudRate Hb. now repeat apply conj.
  - intros p st H. exact H.
  - intros p b H. exact H.
  - intros p command H. exact H.
Qed.

Lemma written_law :
  PortLaw (fun p => Forall terminated (sp_written p)).
Proof.
  split.
  - intros path baudRate _. constructor.
  - intros p st H. exact H.
  - intros p b H. exact H.
  - intros p command H. simpl. apply Forall_app. split; [exact H|].
    constructor; [now exists command | constructor].
Qed.

(** X1: every port object a run creates has the settings of the
    constructor call of lines 125-131 for as long as the process runs: one
    of the eight baud rates of the prompt, 8 data bits, 1 stop bit, no
    parity. *)
Theorem ports_configured (dir : list string) (f : FileSystem)
    (inputs : list Input) (s0 s : State) (c : nat) (p : SerialPort) :
  start dir f = Some s0 → run s0 inputs = Some s →
  ports s !! c = Some p →
  sp_baudRate p ∈ baudChoices ∧ sp_dataBits p = 8%Z ∧ sp_stopBits p = 1%Z ∧
  sp_parity p = "none".
Proof.
  intros Hstart Hrun Hp.
  pose proof (ports_run configured dir f inputs s0 s configured_law Hstart Hrun)
    as H.
  exact (Forall_lookup_1 _ _ _ _ H Hp).
Qed.

Lemma ports_configured_witness :
  sp_baudRate (mkPort "/dev/ttyUSB0" 115200 8 1 "none" Open "" [])
    ∈ baudChoices.
Proof.
  refine (proj1 (ports_configured Sample.home Sample.disk
                   [Sample.connect; from_port 0 ev_open]
                   Sample.disconnected Sample.connected 0 _ _ _ _));
    vm_compute; reflexivity.
Defined.

(** X2: everything a run has written to a port ends with ['\r\n']: each
    text passed to [serialConnection.write] is a command followed by the
    terminator of line 213. *)
Theorem writes_terminated (dir : list string) (f : FileSystem)
    (inputs : list Input) (s0 s : State) (c : nat) (p : SerialPort)
    (text : string) :
  start dir f = Some s0 → run s0 inputs = Some s →
  ports s !! c = Some p → text ∈ sp_written p →
  ∃ command, text = command +:+ CRLF.
Proof.
  intros Hstart Hrun Hp Hin.
  pose proof (ports_run _ dir f inputs s0 s written_law Hstart Hrun) as H.
  pose proof (Forall_lookup_1 _ _ _ _ H Hp) as Hw. simpl in Hw.
  rewrite Forall_forall in Hw. exact (Hw text Hin).
Qed.

Lemma writes_terminated_witness :
  ∃ command, "AT+GMR" +:+ CRLF = command +:+ CRLF.
Proof.
  refine (writes_terminated Sample.home Sample.disk
            [Sample.connect; from_port 0 ev_open;
             answer_connected (pick_send "AT+GMR" None)]
            Sample.disconnected
            (sendCommand "AT+GMR" None Sample.connected) 0
            (port_write (mkPort "/dev/ttyUSB0" 115200 8 1 "none" Open "" [])
               ("AT+GMR" +:+ CRLF))
            ("AT+GMR" +:+ CRLF) _ _ _ _);
    [vm_compute; reflexivity | vm_compute; reflexivity
     | vm_compute; reflexivity | apply list_elem_of_singleton; reflexivity].
Defined.

(** X3: the two variables never dangle.  In every state of a run, a
    non-null [serialConnection] refers to a port object that is opening or
    open, never to one that was closed or has failed, and a non-null
    [logStream] refers to a write stream that has not been ended: the
    program never writes to a closed port or after [end()]. *)
Theorem variables_refer_to_live_objects (dir : list string) (f : FileSystem)
    (inputs : list Input) (s0 s : State) :
  start dir f = Some s0 → run s0 inputs = Some s →
  (∀ c, serialConnection s = Some c →
        ∃ p, ports s !! c = Some p ∧
             (sp_status p = Opening ∨ sp_status p = Open)) ∧
  (∀ k, logStream s = Some k →
        ∃ w, streams s !! k = Some w ∧ ws_ended w = false).
Proof.
  intros Hstart Hrun.
  destruct (run_Inv inputs s0 s (start_Inv dir f s0 Hstart) Hrun)
    as [[_ H2 _ H4] _].
  split; [|exact H4].
  intros c Hc. destruct (H2 c Hc) as (p & Hp & Hlive). exists p.
  split; [exact Hp|]. destruct (sp_status p); try discriminate; eauto.
Qed.

Lemma variables_refer_to_live_objects_witness :
  ∃ w, streams Sample.logging !! 0 = Some w ∧ ws_ended w = false.
Proof.
  refine (proj2 (variables_refer_to_live_objects Sample.home Sample.disk
                   [Sample.connect; from_port 0 ev_open; Sample.log_to "out.txt"]
                   Sample.disconnected Sample.logging _ _) 0 _);
    vm_compute; reflexivity.
Defined.

(** ** The menu and the Connection *)

Lemma deliver_exited (events : list ReceivedLine) (s : State) :
  exited (deliver events s) = exited s.
Proof.
  revert s. induction events as [|e events IH]; intros s; [reflexivity|].
  change (deliver (e :: events) s)
    with (deliver events (parser_on_data (fst e) (snd e) s)).
  rewrite IH. unfold parser_on_data. simpl.
  destruct (logStream s) as [k|]; [|reflexivity].
  unfold write_stream. simpl. destruct (streams s !! k); reflexivity.
Qed.

Lemma step_menu_exact (s s' : State) (i : Input) :
  menu_exact s → step s i = Some s' → exited s' = None → menu_exact s'.
Proof.
  intros Hm Hs Hex. unfold step in Hs. destruct (exited s); [discriminate|].
  destruct i as [a|a|c e|].
  - destruct (menu s); [|discriminate].
    destruct a as [listed port_choice baud_choice|]; simpl in Hs.
    + unfold connectToDevice in Hs.
      destruct listed as [message|found];
        [apply showMainMenu_only_menu in Hs as [-> Hs]; exact Hs|].
      destruct (bool_decide (length found = 0));
        [apply showMainMenu_only_menu in Hs as [-> Hs]; exact Hs|].
      destruct (found !! port_choice); [|discriminate]. simpl in Hs.
      destruct (baudChoices !! baud_choice); [|discriminate]. simpl in Hs.
      apply showMainMenu_only_menu in Hs as [-> Hs]. exact Hs.
    + injection Hs as <-. discriminate.
  - destruct (menu s); [discriminate|].
    destruct a as [|command write_error|typed timestamp mkdir_error|];
      simpl in Hs.
    + apply showMainMenu_only_menu in Hs as [-> Hs]. exact Hs.
    + apply showConnectedMenu_only_menu in Hs as [-> Hs]. split; eauto.
    + apply showConnectedMenu_only_menu in Hs as [-> Hs]. split; eauto.
    + injection Hs as <-. discriminate.
  - assert (Hp : port_event c e s = Some s') by (destruct (menu s); exact Hs).
    clear Hs. unfold port_event in Hp.
    destruct (ports s !! c) as [p|]; [|discriminate]. simpl in Hp.
    destruct e as [|message| |chunk now]; destruct (sp_status p);
      try discriminate.
    + injection Hp as <-. exact Hm.
    + apply showMainMenu_only_menu in Hp as [-> Hp]. exact Hp.
    + apply showMainMenu_only_menu in Hp as [-> Hp]. exact Hp.
    + unfold on_close in Hp.
      apply showMainMenu_only_menu in Hp as [-> Hp]. exact Hp.
    + injection Hp as <-. unfold menu_exact.
      match goal with |- context [deliver ?ev ?s0] =>
        destruct (deliver_variables ev s0) as (E1 & _ & _ & _ & E5) end.
      rewrite E1, E5. exact Hm.
  - assert (Some (on_SIGINT s) = Some s') as [= <-] by (destruct (menu s); exact Hs).
    discriminate.
Qed.

Lemma run_exited (inputs : list Input) :
  ∀ s s', run s inputs = Some s' → exited s' = None → exited s = None.
Proof.
  induction inputs as [|i more IH]; intros s s' Hr Hex; simpl in Hr.
  - now injection Hr as <-.
  - destruct (step s i) as [s1|] eqn:Hs; [|discriminate].
    unfold step in Hs. destruct (exited s); [discriminate | reflexivity].
Qed.

Lemma run_menu_exact (inputs : list Input) :
  ∀ s s', menu_exact s → run s inputs = Some s' → exited s' = None →
          menu_exact s'.
Proof.
  induction inputs as [|i more IH]; intros s s' Hm Hr Hex; simpl in Hr.
  - now injection Hr as <-.
  - destruct (step s i) as [s1|] eqn:Hs; [|discriminate]. simpl in Hr.
    apply (IH s1 s'); [|exact Hr | exact Hex].
    apply (step_menu_exact s s1 i Hm Hs).
    now apply (run_exited more s1 s').
Qed.



(** ** The file system only grows *)

Lemma fs_grows_refl (f : FileSystem) : fs_grows f f.
Proof.
  split; [set_solver|]. intros q text H. exists "".
  now rewrite string_app_empty_r.
Qed.

Lemma fs_grows_trans (f1 f2 f3 : FileSystem) :
  fs_grows f1 f2 → fs_grows f2 f3 → fs_grows f1 f3.
Proof.
  intros [D1 F1] [D2 F2]. split; [set_solver|].
  intros q text H. destruct (F1 q text H) as [m1 H1].
  destruct (F2 q _ H1) as [m2 H2]. exists (m1 +:+ m2).
  now rewrite H2, string_app_assoc.
Qed.

Lemma fs_grows_stream_write (f : FileSystem) (w : WriteStream) (text : string) :
  fs_grows f (stream_write f w text).
Proof.
  unfold stream_write. destruct (_ && _); [|apply fs_grows_refl].
  split; [simpl; set_solver|]. intros q old Hq. simpl.
  destruct (decide (ws_path w = q)) as [<-|Hne].
  - rewrite lookup_insert_eq, Hq. simpl. eauto.
  - rewrite lookup_insert_ne by exact Hne. exists "".
    now rewrite string_app_empty_r.
Qed.

Lemma fs_grows_createWriteStream (f : FileSystem) (p : list string)
    (flags : string) :
  fs_grows f (fst (createWriteStream f p flags)).
Proof.
  destruct (createWriteStream_keeps f p flags) as (D & F & _).
  split; [rewrite D; set_solver|].
  intros q text Hq. exists "". rewrite string_app_empty_r. now apply F.
Qed.

Lemma fs_grows_mkdirSync (f f' : FileSystem) (p : list string)
    (env_error : option string) :
  mkdirSync f p env_error = inr f' → fs_grows f f'.
Proof.
  unfold mkdirSync. destruct env_error; [discriminate|].
  destruct (existsSync f p); [discriminate|].
  destruct (bool_decide _); [|discriminate]. intros [= <-].
  split; [simpl; set_solver|]. intros q text Hq. exists "".
  now rewrite string_app_empty_r.
Qed.

Lemma fs_grows_toggleLogging (typed timestamp : string)
    (mkdir_error : option string) (s : State) :
  fs_grows (fs s) (fs (toggleLogging typed timestamp mkdir_error s)).
Proof.
  unfold toggleLogging. destruct (logStream s); [apply fs_grows_refl|].
  destruct (if negb _ then _ else _) as [message|f] eqn:Hmade;
    [apply fs_grows_refl|].
  assert (Hf : fs_grows (fs s) f).
  { destruct (negb _); [eapply fs_grows_mkdirSync; exact Hmade|].
    injection Hmade as <-. apply fs_grows_refl. }
  pose proof (fs_grows_createWriteStream f
                (path_join (path_join (cwd s) "logs")
                   (prompt_input typed (defaultLogName timestamp))) "a") as Hc.
  destruct (createWriteStream _ _ _) as [f' w]. simpl in Hc |- *.
  eapply fs_grows_trans; eassumption.
Qed.

Lemma fs_grows_deliver (events : list ReceivedLine) (s : State) :
  fs_grows (fs s) (fs (deliver events s)).
Proof.
  revert s. induction events as [|e events IH]; intros s;
    [apply fs_grows_refl|].
  change (deliver (e :: events) s)
    with (deliver events (parser_on_data (fst e) (snd e) s)).
  eapply fs_grows_trans; [|apply IH].
  unfold parser_on_data. simpl. destruct (logStream s) as [k|];
    [|apply fs_grows_refl].
  unfold write_stream. simpl. destruct (streams s !! k);
    [apply fs_grows_stream_write | apply fs_grows_refl].
Qed.

Lemma fs_connectToDevice (listed : string + list PortInfo)
    (port_choice baud_choice : nat) (s s' : State) :
  connectToDevice listed port_choice baud_choice s = Some s' → fs s' = fs s.
Proof.
  intros Hs. unfold connectToDevice in Hs.
  destruct listed as [message|found];
    [apply showMainMenu_only_menu in Hs as [-> _]; reflexivity|].
  destruct (bool_decide (length found = 0));
    [apply showMainMenu_only_menu in Hs as [-> _]; reflexivity|].
  destruct (found !! port_choice); [|discriminate]. simpl in Hs.
  destruct (baudChoices !! baud_choice); [|discriminate]. simpl in Hs.
  apply showMainMenu_only_menu in Hs as [-> _]. reflexivity.
Qed.

Lemma fs_grows_step (s s' : State) (i : Input) :
  step s i = Some s' → fs_grows (fs s) (fs s').
Proof.
  intros Hs. unfold step in Hs. destruct (exited s); [discriminate|].
  destruct i as [a|a|c e|].
  - destruct (menu s); [|discriminate].
    destruct a as [listed port_choice baud_choice|]; simpl in Hs.
    + apply fs_connectToDevice in Hs. rewrite Hs. apply fs_grows_refl.
    + injection Hs as <-. apply fs_grows_refl.
  - destruct (menu s); [discriminate|].
    destruct a as [|command write_error|typed timestamp mkdir_error|];
      simpl in Hs.
    + apply showMainMenu_only_menu in Hs as [-> _]. simpl.
      rewrite fs_disconnectFromDevice. apply fs_grows_refl.
    + apply showConnectedMenu_only_menu in Hs as [-> _]. simpl.
      destruct (sendCommand_variables command write_error s)
        as (_ & _ & _ & E & _).
      rewrite E. apply fs_grows_refl.
    + apply showConnectedMenu_only_menu in Hs as [-> _].
      apply fs_grows_toggleLogging.
    + injection Hs as <-. simpl. rewrite fs_disconnectFromDevice.
      apply fs_grows_refl.
  - assert (Hp : port_event c e s = Some s') by (destruct (menu s); exact Hs).
    clear Hs. unfold port_event in Hp.
    destruct (ports s !! c) as [p|]; [|discriminate]. simpl in Hp.
    destruct e as [|message| |chunk now]; destruct (sp_status p);
      try discriminate.
    + injection Hp as <-. apply fs_grows_refl.
    + apply showMainMenu_only_menu in Hp as [-> _]. apply fs_grows_refl.
    + apply showMainMenu_only_menu in Hp as [-> _]. apply fs_grows_refl.
    + apply fs_on_close in Hp. rewrite Hp. apply fs_grows_refl.
    + injection Hp as <-.
      match goal with |- fs_grows _ (fs (deliver ?ev ?s0)) =>
        apply (fs_grows_deliver ev s0) end.
  - assert (Some (on_SIGINT s) = Some s') as [= <-] by (destruct (menu s); exact Hs).
    simpl. rewrite fs_disconnectFromDevice. apply fs_grows_refl.
Qed.

(** X5: the program only ever adds to the file system.  Over any inputs,
    from any state, every directory is still there afterwards and every
    file still starts with the content it had: logging creates [logs],
    opens files with flags ['a'] and appends; nothing is removed or
    truncated. *)
Theorem file_system_only_grows (inputs : list Input) :
  ∀ s s', run s inputs = Some s' →
    dirs (fs s) ⊆ dirs (fs s') ∧
    ∀ q text, files (fs s) !! q = Some text →
              ∃ more, files (fs s') !! q = Some (text +:+ more).
Proof.
  induction inputs as [|i more IH]; intros s s' Hr; simpl in Hr.
  - injection Hr as <-. apply fs_grows_refl.
  - destruct (step s i) as [s1|] eqn:Hs; [|discriminate]. simpl in Hr.
    apply (fs_grows_trans (fs s) (fs s1) (fs s'));
      [apply (fs_grows_step s s1 i Hs) | apply (IH s1 s' Hr)].
Qed.

Lemma file_system_only_grows_witness :
  Sample.home ∈ dirs (fs Sample.logging).
Proof.
  refine (proj1 (file_system_only_grows
                   [Sample.connect; from_port 0 ev_open; Sample.log_to "out.txt"]
                   Sample.disconnected Sample.logging _) Sample.home _).
  - vm_compute. reflexivity.
  - vm_compute. set_solver.
Defined.

(** ** Leaving the program *)

Lemma Owned_no_connection (s : State) :
  Owned s → serialConnection s = None → connections s = 0.
Proof.
  intros H Hc. unfold connections. rewrite filter_none; [reflexivity|].
  intros j p Hp. destruct (live (sp_status p)) eqn:Hl; [|reflexivity].
  pose proof (owned_port s H j p Hp Hl). congruence.
Qed.

Lemma Owned_no_log (s : State) :
  Owned s → logStream s = None → logDestinations s = 0.
Proof.
  intros H Hk. unfold logDestinations. rewrite filter_none; [reflexivity|].
  intros j w Hw. destruct (ws_ended w) eqn:He; [reflexivity|].
  pose proof (owned_stream s H j w Hw He). congruence.
Qed.

Lemma disconnectFromDevice_unbinds_log (s : State) :
  is_Some (serialConnection s) → logStream (disconnectFromDevice s) = None.
Proof.
  intros [c Hc]. unfold disconnectFromDevice. rewrite Hc. simpl.
  destruct (logStream s) eqn:Hk; [reflexivity | exact Hk].
Qed.

Lemma run_after_exit (s : State) (i : Input) (more : list Input) :
  is_Some (exited s) → run s (i :: more) = None.
Proof. intros [code H]. simpl. unfold step. now rewrite H. Qed.



(** ** More on logging *)

(** X7: when [fs.mkdirSync] throws while logging is being started (no
    [logs] directory yet), the [catch] of lines 248-250 reports it and the
    session is otherwise untouched: no stream is created and [logStream]
    stays null.  When something named [logs] already exists, [mkdirSync] is
    not called, so a refusal of the environment does not matter. *)
Theorem log_directory_failure (typed timestamp message : string) (s : State) :
  logStream s = None →
  (existsSync (fs s) (logDir s) = false →
   toggleLogging typed timestamp (Some message) s
   = print Error ("Failed to create log file: " +:+ message) s) ∧
  (existsSync (fs s) (logDir s) = true →
   toggleLogging typed timestamp (Some message) s
   = toggleLogging typed timestamp None s).
Proof.
  intros Hnone. unfold toggleLogging. rewrite Hnone. fold (logDir s).
  split; intros Hex; rewrite Hex; reflexivity.
Qed.

Lemma log_directory_failure_witness :
  logStream (toggleLogging "out.txt" "T" (Some "EACCES") Sample.connected)
  = None.
Proof.
  destruct (log_directory_failure "out.txt" "T" "EACCES" Sample.connected
              eq_refl) as [Hfail _].
  rewrite Hfail; [reflexivity | vm_compute; reflexivity].
Defined.

Lemma occurs_app (c : ascii) (a b : string) :
  occurs c (a +:+ b) = occurs c a || occurs c b.
Proof.
  induction a as [|x a IH]; simpl; [reflexivity|].
  now rewrite IH, orb_assoc.
Qed.

Lemma occurs_replace_colons (timestamp : string) :
  occurs ":"%char (replace_colons timestamp) = false ∧
  occurs "/"%char (replace_colons timestamp) = occurs "/"%char timestamp.
Proof.
  induction timestamp as [|x t [IH1 IH2]]; simpl; [now split|].
  rewrite IH1, IH2. destruct (Ascii.eqb x ":"%char) eqn:Hx.
  - apply Ascii.eqb_eq in Hx as ->. now split.
  - rewrite Hx. now split.
Qed.

Lemma split_on_absent (sep : ascii) (name : string) :
  ∀ seg, occurs sep name = false →
         split_on sep seg name = [seg +:+ name].
Proof.
  induction name as [|x name IH]; intros seg H; simpl in *.
  - now rewrite string_app_empty_r.
  - apply orb_false_iff in H as [Hx Hname]. rewrite Hx.
    rewrite (IH _ Hname), string_app_assoc. reflexivity.
Qed.

(** X8: when the operator types nothing at the file-name prompt, the name
    is the default of line 233, [serial_log_<clock>.txt] with every [:] of
    the clock reading replaced by [-].  It holds no [:], and for a clock
    reading without [/] (as ISO-8601 readings are) the log file is the file
    of that name directly in the [logs] directory. *)
Theorem default_log_file (timestamp : string) (s : State) :
  occurs "/"%char timestamp = false →
  prompt_input "" (defaultLogName timestamp) = defaultLogName timestamp ∧
  occurs ":"%char (defaultLogName timestamp) = false ∧
  path_join (logDir s) (prompt_input "" (defaultLogName timestamp))
  = cwd s ++ ["logs"; defaultLogName timestamp].
Proof.
  intros Hslash.
  destruct (occurs_replace_colons timestamp) as [Hcolon Hsame].
  split; [reflexivity|]. split.
  - unfold defaultLogName. rewrite !occurs_app, Hcolon. reflexivity.
  - change (prompt_input "" (defaultLogName timestamp))
      with (defaultLogName timestamp).
    unfold path_join at 1.
    rewrite (split_on_absent "/"%char (defaultLogName timestamp) "").
    + simpl fold_left. rewrite logDir_cwd. unfold push_segment.
      rewrite bool_decide_eq_false_2 by (intros [H|H]; discriminate H).
      rewrite bool_decide_eq_false_2 by (intros H; discriminate H).
      now rewrite <- app_assoc.
    + unfold defaultLogName. rewrite !occurs_app, Hsame, Hslash. reflexivity.
Qed.

Lemma default_log_file_witness :
  path_join (logDir Sample.connected)
    (prompt_input "" (defaultLogName "2024-05-01T10:00:00.000Z"))
  = Sample.home ++ ["logs"; "serial_log_2024-05-01T10-00-00.000Z.txt"].
Proof.
  exact (proj2 (proj2 (default_log_file "2024-05-01T10:00:00.000Z"
                         Sample.connected eq_refl))).
Defined.

Lemma fs_deliver_not_logging (events : list ReceivedLine) (s : State) :
  logStream s = None → fs (deliver events s) = fs s.
Proof.
  revert s. induction events as [|e events IH]; intros s Hk; [reflexivity|].
  change (deliver (e :: events) s)
    with (deliver events (parser_on_data (fst e) (snd e) s)).
  destruct (parser_on_data_variables (fst e) (snd e) s) as (_ & E & _).
  rewrite IH by now rewrite E.
  unfold parser_on_data. simpl. now rewrite Hk.
Qed.

(** X9: received lines reach a file only while logging is on.  With
    [logStream] null the callback of line 158 leaves the file system as it
    is, and once logging has been stopped by [toggleLogging] the lines that
    follow no longer change any file. *)
Theorem lines_not_logged_when_off (events : list ReceivedLine) (s : State) :
  (logStream s = None → fs (deliver events s) = fs s) ∧
  (∀ k typed timestamp mkdir_error,
      logStream s = Some k →
      fs (deliver events (toggleLogging typed timestamp mkdir_error s))
      = fs s).
Proof.
  split; [apply fs_deliver_not_logging|].
  intros k typed timestamp mkdir_error Hk.
  rewrite fs_deliver_not_logging; unfold toggleLogging; now rewrite Hk.
Qed.

Lemma lines_not_logged_when_off_witness :
  fs (deliver [("hello", "T")] (toggleLogging "" "T" None Sample.logging))
  = fs Sample.logging.
Proof.
  exact (proj2 (lines_not_logged_when_off [("hello", "T")] Sample.logging)
           0 "" "T" None eq_refl).
Defined.

(** X10: a read on the open port prints every line it completes, in
    order, as [[T] text] with [console.log] and again with [console.debug],
    whether or not logging is on, and changes neither variable, nor the
    menu, nor any port but the parser buffer of this one. *)
Theorem data_is_displayed (c : nat) (p : SerialPort) (chunk : string)
    (now : nat → string) (s s' : State) :
  ports s !! c = Some p →
  port_event c (ev_data chunk now) s = Some s' →
  console s' = console s ++ concat (map console_entries (received p chunk now)) ∧
  serialConnection s' = serialConnection s ∧ logStream s' = logStream s ∧
  menu s' = menu s ∧ streams s' = streams s ∧
  (∀ j, j ≠ c → ports s' !! j = ports s !! j).
Proof.
  intros Hp Hs. unfold port_event in Hs. rewrite Hp in Hs. simpl in Hs.
  destruct (sp_status p); try discriminate. injection Hs as <-.
  match goal with |- context [deliver ?ev ?s0] =>
    destruct (deliver_variables ev s0) as (E1 & E2 & E3 & E4 & E5);
    rewrite (console_deliver ev s0), E1, E2, E3, E4, E5 end.
  repeat apply conj; try reflexivity.
  intros j Hj. simpl. now rewrite list_lookup_alter_ne.
Qed.

Lemma data_is_displayed_witness :
  ∃ s', port_event 0 (ev_data ("hello" +:+ CRLF) Sample.clock) Sample.connected
        = Some s' ∧
        console s' = console Sample.connected
                     ++ [(Log, "[T0] hello"); (Debug, NL +:+ " [T0] hello")].
Proof.
  eexists. split; [reflexivity|].
  exact (proj1 (data_is_displayed 0
                  (mkPort "/dev/ttyUSB0" 115200 8 1 "none" Open "" [])
                  ("hello" +:+ CRLF) Sample.clock Sample.connected _
                  eq_refl eq_refl)).
Defined.

(** ** Connecting and sending *)

(** X11: when [SerialPort.list()] returns no port, [connectToDevice] asks
    nothing more: it prints the no-ports message and shows the main menu
    again; no port object is created and neither variable changes. *)
Theorem no_ports_detected (port_choice baud_choice : nat) (s : State) :
  serialConnection s = None →
  connectToDevice (inr []) port_choice baud_choice s
  = Some (set_menu DisconnectedMenu
            (print Log "No serial ports detected. Please connect a device." s)).
Proof.
  intros Hc. unfold connectToDevice. simpl. unfold showMainMenu. simpl.
  now rewrite Hc.
Qed.

Lemma no_ports_detected_witness :
  ports <$> connectToDevice (inr []) 3 7 Sample.disconnected = Some [].
Proof.
  rewrite (no_ports_detected 3 7 Sample.disconnected eq_refl). reflexivity.
Defined.

(** X12: a connect with a port and a baud rate picked from the two lists
    binds [serialConnection] to a new port object for that path and rate,
    opening, with an empty parser and nothing written, placed after the
    port objects created before, which are untouched.  The connected menu
    is shown at once, before the port has reported [open]; [logStream] is
    not changed. *)
Theorem connect_binds_new_port (found : list PortInfo)
    (port_choice baud_choice : nat) (info : PortInfo) (baudRate : Z)
    (s : State) :
  found !! port_choice = Some info →
  baudChoices !! baud_choice = Some baudRate →
  ∃ s',
    connectToDevice (inr found) port_choice baud_choice s = Some s' ∧
    serialConnection s' = Some (length (ports s)) ∧
    ports s' = ports s ++
               [mkPort (pi_path info) baudRate 8 1 "none" Opening "" []] ∧
    menu s' = ConnectedMenu ∧ logStream s' = logStream s ∧
    console s' = console s ++
                 [(Log, "Connecting to " +:+ pi_path info +:+ " at "
                        +:+ pretty baudRate +:+ " baud...")].
Proof.
  intros Hinfo Hbaud. unfold connectToDevice.
  assert (bool_decide (length found = 0) = false) as ->.
  { apply bool_decide_eq_false_2. intros H0.
    apply lookup_lt_Some in Hinfo. lia. }
  rewrite Hinfo. simpl. rewrite Hbaud. simpl.
  unfold showMainMenu, showConnectedMenu. simpl.
  rewrite list_lookup_middle by reflexivity. simpl.
  eexists. split; [reflexivity|]. now repeat apply conj.
Qed.

Lemma connect_binds_new_port_witness :
  ∃ s', connectToDevice (inr Sample.attached) 0 4 Sample.disconnected
        = Some s' ∧ serialConnection s' = Some 0.
Proof.
  destruct (connect_binds_new_port Sample.attached 0 4
              (mkPortInfo "/dev/ttyUSB0" (Some "FTDI") None) 115200
              Sample.disconnected eq_refl eq_refl)
    as (s' & Hs' & Hc & _).
  exists s'. split; [exact Hs' | exact Hc].
Defined.

(** X13: a send whose write does not throw passes the command followed by
    ['\r\n'] to the port [serialConnection] refers to, after what was
    written before, and to no other port; it says [Command sent] and
    changes nothing else of that port. *)
Theorem send_writes_command (command : string) (c : nat) (p : SerialPort)
    (s : State) :
  serialConnection s = Some c → ports s !! c = Some p →
  let s' := sendCommand command None s in
  ports s' !! c
  = Some (mkPort (sp_path p) (sp_baudRate p) (sp_dataBits p) (sp_stopBits p)
                 (sp_parity p) (sp_status p) (sp_parser p)
                 (sp_written p ++ [command +:+ CRLF])) ∧
  (∀ j, j ≠ c → ports s' !! j = ports s !! j) ∧
  console s' = console s ++ [(Log, "Command sent: " +:+ command)].
Proof.
  intros Hc Hp. cbv zeta. unfold sendCommand. rewrite Hc. simpl.
  split; [now rewrite list_lookup_alter_eq, Hp|].
  split; [|reflexivity].
  intros j Hj. now rewrite list_lookup_alter_ne.
Qed.

Lemma send_writes_command_witness :
  sp_written <$> ports (sendCommand "AT" None Sample.connected) !! 0
  = Some ["AT" +:+ CRLF].
Proof.
  rewrite (proj1 (send_writes_command "AT" 0
                    (mkPort "/dev/ttyUSB0" 115200 8 1 "none" Open "" [])
                    Sample.connected eq_refl eq_refl)).
  reflexivity.
Defined.

(** Starting logging in a working directory that exists: the stream that
    is bound, and the files that are kept. *)
Lemma toggleLogging_start (typed timestamp : string) (s : State) :
  logStream s = None → cwd s ∈ dirs (fs s) →
  ∃ opened,
    logStream (toggleLogging typed timestamp None s)
    = Some (length (streams s)) ∧
    streams (toggleLogging typed timestamp None s)
    = streams s ++
      [mkWS (path_join (logDir s) (prompt_input typed (defaultLogName timestamp)))
            "a" opened false] ∧
    ∀ q text, files (fs s) !! q = Some text →
              files (fs (toggleLogging typed timestamp None s)) !! q
              = Some text.
Proof.
  intros Hnone Hcwd.
  assert (Hmade : ∃ f,
    (if negb (existsSync (fs s) (logDir s))
     then mkdirSync (fs s) (logDir s) None else inr (fs s)) = inr f ∧
    files f = files (fs s)).
  { destruct (existsSync (fs s) (logDir s)) eqn:Hex; simpl; [eauto|].
    unfold mkdirSync. rewrite Hex.
    assert (dirname (logDir s) = cwd s) as ->
      by (rewrite logDir_cwd; apply removelast_last).
    rewrite bool_decide_eq_true_2 by exact Hcwd. eauto. }
  destruct Hmade as (f & Hf & Hfiles).
  set (target := path_join (logDir s)
                   (prompt_input typed (defaultLogName timestamp))).
  destruct (createWriteStream_keeps f target "a") as (_ & Kf & _).
  destruct (createWriteStream_stream f target "a") as [opened Hw].
  exists opened. unfold toggleLogging. rewrite Hnone.
  fold (logDir s). rewrite Hf. fold target.
  destruct (createWriteStream f target "a") as [f' w].
  simpl in Kf, Hw. subst w. simpl.
  split; [reflexivity|]. split; [reflexivity|].
  intros q text Hq. apply Kf. now rewrite Hfiles.
Qed.

(** X14: starting logging and toggling again leaves no Log Destination:
    [logStream] is null again, the one stream the pair created has been
    ended, the streams created before are as they were, and no file that
    existed before has lost content. *)
Theorem logging_started_then_stopped (typed timestamp typed' timestamp' : string)
    (mkdir_error' : option string) (s : State) :
  logStream s = None → cwd s ∈ dirs (fs s) →
  let s1 := toggleLogging typed timestamp None s in
  let s2 := toggleLogging typed' timestamp' mkdir_error' s1 in
  logStream s2 = None ∧
  (∃ w, streams s2 = streams s ++ [w] ∧ ws_ended w = true ∧ ws_flags w = "a") ∧
  fs s2 = fs s1 ∧
  (∀ q text, files (fs s) !! q = Some text → files (fs s2) !! q = Some text).
Proof.
  intros Hnone Hcwd s1 s2.
  destruct (toggleLogging_start typed timestamp s Hnone Hcwd)
    as (opened & Hk & Hw & Hfiles).
  fold s1 in Hk, Hw, Hfiles.
  assert (E : s2 = print Log "Logging stopped"
                     (set_logStream None (end_stream (length (streams s)) s1))).
  { subst s2. unfold toggleLogging at 1. now rewrite Hk. }
  rewrite E. simpl.
  split; [reflexivity|]. split; [|split; [reflexivity | exact Hfiles]].
  rewrite Hw, alter_last. eexists. split; [reflexivity|]. now split.
Qed.

Lemma logging_started_then_stopped_witness :
  logStream (toggleLogging "" "T2" None
               (toggleLogging "out.txt" "T1" None Sample.connected)) = None.
Proof.
  refine (proj1 (logging_started_then_stopped "out.txt" "T1" "" "T2" None
                   Sample.connected eq_refl _)).
  vm_compute. set_solver.
Defined.

(** ** Port objects over a run *)

Lemma port_continues_refl (p : SerialPort) : port_continues p p.
Proof. now repeat apply conj. Qed.

Lemma ports_continue_refl (l : list SerialPort) : ports_continue l l.
Proof. intros j p Hp. exists p. split; [exact Hp | apply port_continues_refl]. Qed.

Lemma ports_continue_trans (l1 l2 l3 : list SerialPort) :
  ports_continue l1 l2 → ports_continue l2 l3 → ports_continue l1 l3.
Proof.
  intros H12 H23 j p Hp.
  destruct (H12 j p Hp) as (p2 & Hp2 & A1 & A2 & A3 & A4).
  destruct (H23 j p2 Hp2) as (p3 & Hp3 & B1 & B2 & B3 & B4).
  exists p3. split; [exact Hp3|].
  repeat apply conj; [congruence | congruence | auto |].
  etransitivity; eassumption.
Qed.

Lemma ports_continue_alter (f : SerialPort → SerialPort) (c : nat)
    (l : list SerialPort) :
  (∀ p, l !! c = Some p → port_continues p (f p)) →
  ports_continue l (alter f c l).
Proof.
  intros Hf j p Hp. destruct (decide (c = j)) as [->|Hne].
  - exists (f p). rewrite list_lookup_alter_eq, Hp. split; [reflexivity|].
    now apply Hf.
  - exists p. rewrite list_lookup_alter_ne by exact Hne.
    split; [exact Hp | apply port_continues_refl].
Qed.

Lemma ports_continue_app (l more : list SerialPort) :
  ports_continue l (l ++ more).
Proof.
  intros j p Hp. exists p.
  split; [now apply lookup_app_l_Some | apply port_continues_refl].
Qed.

(** Ending a port: any status that is not live. *)
Lemma ports_continue_end (c : nat) (st : PortStatus) (l : list SerialPort) :
  live st = false →
  ports_continue l (alter (fun p => port_with_status p st) c l).
Proof.
  intros Hst. apply ports_continue_alter. intros p _.
  now repeat apply conj.
Qed.

Lemma ports_continue_disconnectFromDevice (s : State) :
  ports_continue (ports s) (ports (disconnectFromDevice s)).
Proof.
  unfold disconnectFromDevice.
  destruct (serialConnection s) as [c|]; [|apply ports_continue_refl].
  simpl. destruct (logStream s); simpl; now apply ports_continue_end.
Qed.

Lemma ports_continue_step (s s' : State) (i : Input) :
  step s i = Some s' → ports_continue (ports s) (ports s').
Proof.
  intros Hs. unfold step in Hs. destruct (exited s); [discriminate|].
  destruct i as [a|a|c e|].
  - destruct (menu s); [|discriminate].
    destruct a as [listed port_choice baud_choice|]; simpl in Hs;
      [|injection Hs as <-; apply ports_continue_refl].
    unfold connectToDevice in Hs.
    destruct listed as [message|found];
      [apply showMainMenu_only_menu in Hs as [-> _]; apply ports_continue_refl|].
    destruct (bool_decide (length found = 0));
      [apply showMainMenu_only_menu in Hs as [-> _]; apply ports_continue_refl|].
    destruct (found !! port_choice); [|discriminate]. simpl in Hs.
    destruct (baudChoices !! baud_choice); [|discriminate]. simpl in Hs.
    apply showMainMenu_only_menu in Hs as [-> _]. apply ports_continue_app.
  - destruct (menu s); [discriminate|].
    destruct a as [|command write_error|typed timestamp mkdir_error|];
      simpl in Hs.
    + apply showMainMenu_only_menu in Hs as [-> _].
      apply ports_continue_disconnectFromDevice.
    + apply showConnectedMenu_only_menu in Hs as [-> _]. simpl.
      unfold sendCommand. destruct (serialConnection s) as [c|];
        [|apply ports_continue_refl].
      destruct write_error; [apply ports_continue_refl|]. simpl.
      apply ports_continue_alter. intros p _.
      repeat apply conj; try reflexivity; [auto|].
      simpl. now apply prefix_app_r.
    + apply showConnectedMenu_only_menu in Hs as [-> _]. simpl.
      destruct (toggleLogging_serialConnection typed timestamp mkdir_error s)
        as [_ E]. rewrite E. apply ports_continue_refl.
    + injection Hs as <-. apply ports_continue_disconnectFromDevice.
  - assert (Hp : port_event c e s = Some s') by (destruct (menu s); exact Hs).
    clear Hs. unfold port_event in Hp.
    destruct (ports s !! c) as [p|] eqn:Hc; [|discriminate]. simpl in Hp.
    destruct e as [|message| |chunk now]; destruct (sp_status p) eqn:Hst;
      try discriminate.
    + injection Hp as <-. simpl. apply ports_continue_alter.
      intros q Hq. assert (q = p) as -> by congruence.
      repeat apply conj; try reflexivity. rewrite Hst. discriminate.
    + apply showMainMenu_only_menu in Hp as [-> _]. now apply ports_continue_end.
    + apply showMainMenu_only_menu in Hp as [-> _]. now apply ports_continue_end.
    + apply ports_on_close in Hp. rewrite Hp. now apply ports_continue_end.
    + injection Hp as <-.
      match goal with |- context [deliver ?ev ?s0] =>
        destruct (deliver_variables ev s0) as (_ & _ & E & _) end.
      rewrite E. simpl. apply ports_continue_alter. intros q _.
      now repeat apply conj.
  - assert (Some (on_SIGINT s) = Some s') as [= <-] by (destruct (menu s); exact Hs).
    apply (ports_continue_disconnectFromDevice (print Log _ s)).
Qed.

(** X15: a port object is never dropped, replaced or reopened.  Over any
    inputs, from any state, each port object is still at its place with its
    path and baud rate; one that was closed or had failed is still over (a
    reconnect makes a new object); and what had been written to it is still
    the beginning of what it has been sent. *)
Theorem ports_are_kept (inputs : list Input) :
  ∀ s s' j p,
    run s inputs = Some s' → ports s !! j = Some p →
    ∃ p', ports s' !! j = Some p' ∧
          sp_path p' = sp_path p ∧ sp_baudRate p' = sp_baudRate p ∧
          (live (sp_status p) = false → live (sp_status p') = false) ∧
          sp_written p `prefix_of` sp_written p'.
Proof.
  induction inputs as [|i more IH]; intros s s' j p Hr Hp; simpl in Hr.
  - injection Hr as <-. exact (ports_continue_refl (ports s) j p Hp).
  - destruct (step s i) as [s1|] eqn:Hs; [|discriminate]. simpl in Hr.
    apply (ports_continue_trans (ports s) (ports s1) (ports s')
             (ports_continue_step s s1 i Hs)); [|exact Hp].
    intros j' p' Hp'. exact (IH s1 s' j' p' Hr Hp').
Qed.

Lemma ports_are_kept_witness :
  ∃ p', ports (Sample.state_after Sample.reconnect) !! 0 = Some p' ∧
        live (sp_status p') = false.
Proof.
  destruct (ports_are_kept [Sample.connect] Sample.after_error
              (Sample.state_after Sample.reconnect) 0
              (mkPort "/dev/ttyUSB0" 115200 8 1 "none" Failed "" []))
    as (p' & Hp' & _ & _ & Hover & _); try (vm_compute; reflexivity).
  exists p'. split; [exact Hp' | apply Hover; reflexivity].
Defined.
